(** * adafruit_sharpmemorydisplay: the SHARP memory display driver

    A shallow embedding of [adafruit_sharpmemorydisplay.py] and the
    properties of its wire protocol, VCOM toggle and image import. *)

From Stdlib Require Import ZArith Lia Bool List.
From stdpp Require Import base list strings.

Open Scope Z_scope.

(** ** Python values used by the driver *)

(** A [bytearray]: a mutable sequence of ints in [range(0, 256)]. *)
Abbreviation bytearray := (list Z).

(** The exceptions the driver can raise or let through. The two
    [ValueError]s of [image] are kept apart by what they report:
    ["Image must be in mode 1."] and ["Image must be same dimensions as
    display ({0}x{1})."] with its two format arguments. *)
Inductive value_error :=
| ImageMode
| ImageDimensions (width height : Z)
| ByteRange
| NegativeCount.

Inductive exception :=
| ValueError (what : value_error)
| IndexError
| OutOfRange
| OSError.

Inductive outcome (A : Type) :=
| Return (a : A)
| Raise (e : exception).
Arguments Return {A} a.
Arguments Raise {A} e.

(** Index normalisation of Python sequences: a negative index counts from
    the end; anything still outside [0, n) is out of range. *)
Definition py_index (n i : Z) : option nat :=
  let j := if i <? 0 then i + n else i in
  if (0 <=? j) && (j <? n) then Some (Z.to_nat j) else None.

(** [b[i]] *)
Definition getitem (b : bytearray) (i : Z) : outcome Z :=
  match py_index (Z.of_nat (length b)) i with
  | Some j => match b !! j with Some v => Return v | None => Raise IndexError end
  | None => Raise IndexError
  end.

(** [b[i] = v]: the index is checked first, then the byte range. *)
Definition setitem (b : bytearray) (i v : Z) : outcome bytearray :=
  match py_index (Z.of_nat (length b)) i with
  | Some j =>
      if (0 <=? v) && (v <? 256) then Return (<[j:=v]> b)
      else Raise (ValueError ByteRange)
  | None => Raise IndexError
  end.

(** Bound clamping of a slice [b[lo:hi]] (step 1). *)
Definition slice_bound (n i : Z) : Z :=
  if i <? 0 then Z.max (i + n) 0 else Z.min i n.

(** [b[lo:hi]]: a fresh copy of the elements between the clamped bounds. *)
Definition py_slice (b : bytearray) (lo hi : Z) : bytearray :=
  let n := Z.of_nat (length b) in
  let lo' := slice_bound n lo in
  let hi' := slice_bound n hi in
  take (Z.to_nat (hi' - lo')) (drop (Z.to_nat lo') b).

(** [range(n)] *)
Definition range (n : Z) : list Z := seqZ 0 n.

(** ** Module constants *)

Definition _SHARPMEM_BIT_WRITECMD : Z := 0x80. (* in lsb *)
Definition _SHARPMEM_BIT_VCOM : Z := 0x40.     (* in lsb *)
Definition _SHARPMEM_BIT_CLEAR : Z := 0x20.    (* in lsb *)

(** ** reverse_bit *)

(** One turn of the loop body, on the pair [(result, num)]:
    [result <<= 1; result += num & 1; num >>= 1]. *)
Definition reverse_bit_step (s : Z * Z) : Z * Z :=
  let '(result, num) := s in
  let result := Z.shiftl result 1 in
  let result := result + Z.land num 1 in
  let num := Z.shiftr num 1 in
  (result, num).

(** [reverse_bit(num)]: [result = 0], eight turns, [return result]. *)
Definition reverse_bit (num : Z) : Z :=
  fst (Nat.iter 8 reverse_bit_step (0, num)).

(** ** The SPI device (external collaborator)

    [adafruit_bus_device.spi_device.SPIDevice] is not part of this
    module. It is modelled by what the driver can observe of it: the bytes
    accepted so far ([wire]), whether chip select is asserted ([cs]), and how
    many more writes the bus accepts before one fails ([credit], [None] for
    a bus that never fails). *)
Record SPIDevice := mkSPI {
  wire : list Z;
  cs : bool;
  credit : option nat
}.

(** ** The display object *)

(** A reference to a bytearray on the heap. *)
Abbreviation ref := nat.

(** The attributes of a [SharpMemoryDisplay]. [width], [height], [stride],
    [rotation] and [buf] are the ones of the [FrameBuffer] base class;
    [buf] and [buffer] are references, so that two names for one bytearray
    stay two names for one bytearray. The scratch bytearray [_buf] is never
    handed out and is held by value. *)
Record SharpMemoryDisplay := mkDisplay {
  spi_device : SPIDevice;
  _buf : bytearray;
  buffer : ref;
  buf : ref;
  width : Z;
  height : Z;
  stride : Z;
  rotation : Z;
  _vcom : bool
}.

(** The program state: the display object, the heap of bytearrays it
    points into, and the module global [numpy] (true when the import
    succeeded). *)
Record state := mkState {
  self : SharpMemoryDisplay;
  heap : list bytearray;
  numpy : bool
}.

Definition with_self (f : SharpMemoryDisplay -> SharpMemoryDisplay) (st : state) : state :=
  mkState (f (self st)) (heap st) (numpy st).

Definition with_heap (f : list bytearray -> list bytearray) (st : state) : state :=
  mkState (self st) (f (heap st)) (numpy st).

Definition set_spi_device (v : SPIDevice) (d : SharpMemoryDisplay) : SharpMemoryDisplay :=
  mkDisplay v (_buf d) (buffer d) (buf d) (width d) (height d) (stride d) (rotation d) (_vcom d).

Definition set__buf (v : bytearray) (d : SharpMemoryDisplay) : SharpMemoryDisplay :=
  mkDisplay (spi_device d) v (buffer d) (buf d) (width d) (height d) (stride d) (rotation d) (_vcom d).

Definition set_buffer (v : ref) (d : SharpMemoryDisplay) : SharpMemoryDisplay :=
  mkDisplay (spi_device d) (_buf d) v (buf d) (width d) (height d) (stride d) (rotation d) (_vcom d).

Definition set_rotation (v : Z) (d : SharpMemoryDisplay) : SharpMemoryDisplay :=
  mkDisplay (spi_device d) (_buf d) (buffer d) (buf d) (width d) (height d) (stride d) v (_vcom d).

Definition set__vcom (v : bool) (d : SharpMemoryDisplay) : SharpMemoryDisplay :=
  mkDisplay (spi_device d) (_buf d) (buffer d) (buf d) (width d) (height d) (stride d) (rotation d) v.

(** ** Statements: state passing with exceptions

    A statement maps the state to an outcome and the state it leaves
    behind; what was assigned before an exception stays assigned. *)
Definition M (A : Type) := state -> outcome A * state.

Definition ret {A} (a : A) : M A := fun st => (Return a, st).

Definition raise {A} (e : exception) : M A := fun st => (Raise e, st).

Definition bind {A B} (c : M A) (k : A -> M B) : M B := fun st =>
  match c st with
  | (Return a, st') => k a st'
  | (Raise e, st') => (Raise e, st')
  end.

Notation "x <- c ;; k" := (bind c (fun x => k))
  (at level 100, c at next level, right associativity).
Notation "c ;; k" := (bind c (fun _ => k))
  (at level 100, right associativity).

(** Read an attribute of [self]. *)
Definition attr {A} (f : SharpMemoryDisplay -> A) : M A := fun st => (Return (f (self st)), st).

(** Assign to an attribute of [self]. *)
Definition assign (f : SharpMemoryDisplay -> SharpMemoryDisplay) : M unit :=
  fun st => (Return tt, with_self f st).

(** Lift a pure outcome. *)
Definition lift {A} (o : outcome A) : M A := fun st => (o, st).

(** The bytearray a reference points to. *)
Definition deref (r : ref) : M bytearray := fun st =>
  match heap st !! r with
  | Some b => (Return b, st)
  | None => (Raise IndexError, st)
  end.

(** In-place update of the bytearray behind a reference: [r[i] = v]. *)
Definition store (r : ref) (i v : Z) : M unit :=
  b <- deref r ;;
  b' <- lift (setitem b i v) ;;
  fun st => (Return tt, with_heap (fun h => <[r:=b']> h) st).

(** [bytearray(...)]: a new object, referenced by nothing else. *)
Definition new (b : bytearray) : M ref := fun st =>
  (Return (length (heap st)), with_heap (fun h => h ++ [b]) st).

(** [for x in xs: acc = body(x, acc)], the loop's local variables
    threaded through as [acc]. *)
Fixpoint for_ {A B} (xs : list A) (body : A -> B -> M B) (acc : B) : M B :=
  match xs with
  | [] => ret acc
  | x :: xs' => acc' <- body x acc ;; for_ xs' body acc'
  end.

(** [spi.write(data)] on the bus model. *)
Definition spi_write (data : bytearray) : M unit := fun st =>
  let dev := spi_device (self st) in
  match credit dev with
  | Some O => (Raise OSError, st)
  | c => (Return tt,
          with_self (set_spi_device (mkSPI (wire dev ++ data) (cs dev) (Nat.pred <$> c))) st)
  end.

(** [with self.spi_device as spi: body]: chip select is asserted on entry
    and released on every way out. *)
Definition with_spi_device {A} (body : M A) : M A := fun st =>
  let select v d := set_spi_device (mkSPI (wire (spi_device d)) v (credit (spi_device d))) d in
  let '(r, st') := body (with_self (select true) st) in
  (r, with_self (select false) st').

(** [self._buf[i] = v] *)
Definition _buf_setitem (i v : Z) : M unit :=
  b <- attr _buf ;;
  b' <- lift (setitem b i v) ;;
  assign (set__buf b').

(** [self._buf[i]] *)
Definition _buf_getitem (i : Z) : M Z :=
  b <- attr _buf ;; lift (getitem b i).

(** ** SharpMemoryDisplay.show *)

(** The body of [for line in range(self.height)], with the local
    [slice_from] as loop state. *)
Definition show_line (line_len : Z) (line slice_from : Z) : M Z :=
  _buf_setitem 0 (reverse_bit (line + 1)) ;;
  (b <- attr _buf ;; spi_write b) ;;
  (r <- attr buffer ;; b <- deref r ;;
   spi_write (py_slice b slice_from (slice_from + line_len))) ;;
  let slice_from := slice_from + line_len in
  _buf_setitem 0 0 ;;
  (b <- attr _buf ;; spi_write b) ;;
  ret slice_from.

Definition show : M unit :=
  with_spi_device (
    (* toggle the VCOM bit *)
    _buf_setitem 0 _SHARPMEM_BIT_WRITECMD ;;
    vcom <- attr _vcom ;;
    (if vcom
     then b0 <- _buf_getitem 0 ;; _buf_setitem 0 (Z.lor b0 _SHARPMEM_BIT_VCOM)
     else ret tt) ;;
    vcom <- attr _vcom ;;
    assign (set__vcom (negb vcom)) ;;
    (b <- attr _buf ;; spi_write b) ;;
    let slice_from := 0 in
    w <- attr width ;;
    let line_len := w / 8 in
    h <- attr height ;;
    for_ (range h) (show_line line_len) slice_from ;;
    (* we send one last 0 byte *)
    b <- attr _buf ;; spi_write b).

(** [for x in xs: body(x)] *)
Definition for_each {A} (xs : list A) (body : A -> M unit) : M unit :=
  for_ xs (fun x _ => body x) tt.

(** ** The frame buffer base class (external collaborator) *)

(** A pixel value as an image hands it out: an int for the modes with one
    band, a tuple of bands otherwise. *)
Inductive color :=
| Int (v : Z)
| Tuple (bands : list Z).

(** Truth value of a pixel ([if pixels[(x, y)]]). *)
Definition truthy (c : color) : bool :=
  match c with
  | Int v => negb (v =? 0)
  | Tuple bands => negb (bool_decide (bands = []))
  end.

(** [color != 0] *)
Definition color_ne_0 (c : color) : bool :=
  match c with
  | Int v => negb (v =? 0)
  | Tuple _ => true
  end.

Module MHMSBFormat.

(** Modelled from the spec: the [MHMSB] format of [adafruit_framebuf], which
    is not among the sources. Rows are packed row-major, the most significant
    bit of each byte being the leftmost pixel; setting a pixel changes one
    bit of one byte of [buf], in place:
    [index = (y * stride + x) // 8], [offset = 7 - x & 0x07],
    [buf[index] = (buf[index] & ~(0x01 << offset)) | ((color != 0) << offset)]. *)
Definition set_pixel (x y : Z) (c : color) : M unit :=
  s <- attr stride ;;
  let index := (y * s + x) / 8 in
  let offset := Z.land (7 - x) 0x07 in
  r <- attr buf ;;
  b <- deref r ;;
  old <- lift (getitem b index) ;;
  store r index
    (Z.lor (Z.land old (Z.lnot (Z.shiftl 0x01 offset)))
           (Z.shiftl (Z.b2z (color_ne_0 c)) offset)).

(** Modelled from the spec: [fill] of the same format; every byte of [buf]
    becomes [0xFF] or [0x00], in place. *)
Definition fill (c : Z) : M unit :=
  let v := if c =? 0 then 0x00 else 0xFF in
  r <- attr buf ;;
  b <- deref r ;;
  for_each (range (Z.of_nat (length b))) (fun i => store r i v).

End MHMSBFormat.

(** Modelled from the spec: [FrameBuffer.pixel(x, y, color)] of
    [adafruit_framebuf] (the base class, not among the sources), called with
    a colour. The coordinates are first turned by [rotation] the way the base
    class does it, then checked against the panel, and a coordinate outside
    the panel fails with [OutOfRange] (spec 4.1); [image] only ever passes
    coordinates inside the panel. *)
Definition pixel (x y : Z) (c : color) : M unit :=
  rot <- attr rotation ;;
  w <- attr width ;;
  h <- attr height ;;
  let '(x, y) := if rot =? 1 then (w - y - 1, x) else (x, y) in
  let '(x, y) := if rot =? 2 then (w - x - 1, h - y - 1) else (x, y) in
  let '(x, y) := if rot =? 3 then (y, h - x - 1) else (x, y) in
  if (x <? 0) || (w <=? x) || (y <? 0) || (h <=? y) then raise OutOfRange
  else MHMSBFormat.set_pixel x y c.

(** Modelled from the spec: [clear()], the base class's [fill(0)]. *)
Definition clear : M unit := MHMSBFormat.fill 0.

(** ** Images and numpy (external collaborators) *)

(** What [image] reads of a PIL image: [img.mode], [img.size] and the pixel
    access object of [img.load()], indexed by [(x, y)]. *)
Record Image := mkImage {
  mode : string;
  size : Z * Z;
  load : Z -> Z -> color
}.

(** [numpy.asarray(img)] of a one-band image: [imheight] rows of [imwidth]
    truth values. *)
Definition asarray (img : Image) : list (list bool) :=
  let '(imwidth, imheight) := size img in
  (fun y => (fun x => truthy (load img x y)) <$> range imwidth) <$> range imheight.

(** One output byte of [packbits]: up to eight bits, the first one most
    significant, missing ones zero. *)
Definition pack8 (bits : list bool) : Z :=
  fold_left (fun acc k => Z.lor (Z.shiftl acc 1) (Z.b2z (nth k bits false)))
            (seq 0 8) 0.

(** [numpy.packbits] along one row. *)
Definition packbits_row (row : list bool) : list Z :=
  (fun j => pack8 (take 8 (drop (8 * j) row))) <$> seq 0 (Nat.div (length row + 7) 8).

(** [numpy.packbits(a, axis=1)] *)
Definition packbits (a : list (list bool)) : list (list Z) := packbits_row <$> a.

(** [a.flatten().tolist()] *)
Definition flatten (a : list (list Z)) : list Z := concat a.

(** ** SharpMemoryDisplay.__init__ *)

(** [SharpMemoryDisplay(spi, scs_pin, width, height)] in a program where the
    display's buffer is the first bytearray allocated. [bytearray(n)] raises
    for a negative [n]. *)
Definition __init__ (np : bool) (bus : SPIDevice) (width height : Z) : outcome state :=
  (* scs_pin.switch_to_output(value=True) *)
  let dev := mkSPI (wire bus) true (credit bus) in
  (* SPIDevice(spi, scs_pin, cs_active_value=True, ...) drives the pin to the
     value that is not the active one *)
  let dev := mkSPI (wire dev) (negb true) (credit dev) in
  (* prealloc for when we write the display *)
  let _buf := [0] in
  let n := (width / 8) * height in
  if n <? 0 then Raise (ValueError NegativeCount)
  else
    let heap := [replicate (Z.to_nat n) 0] in
    let buffer := 0%nat in
    (* super().__init__(self.buffer, width, height, buf_format=MHMSB) *)
    let buf := buffer in
    let stride := width in
    let rotation := 0 in
    (* Set the vcom bit to a defined state *)
    let _vcom := true in
    Return (mkState (mkDisplay dev _buf buffer buf width height stride rotation _vcom)
                    heap np).

(** ** SharpMemoryDisplay.image *)

Section image.

(** What the loop does with a pixel of an image in mode ["RGB"]. *)
Variable rgb_branch : Z -> Z -> color -> M unit.

(** The body of the double loop of the per-pixel path. *)
Definition image_pixel (img : Image) (pixels : Z -> Z -> color) (x y : Z) : M unit :=
  if String.eqb (mode img) "RGB" then rgb_branch x y (pixels x y)
  else if truthy (pixels x y) then pixel x y (Int 1) (* only write if pixel is true *)
  else ret tt.

(** The vectorized path. *)
Definition image_numpy (img : Image) : M unit :=
  r <- new (flatten (packbits (asarray img))) ;;
  assign (set_buffer r).

(** The per-pixel path. *)
Definition image_loop (img : Image) (width height : Z) : M unit :=
  (* Grab all the pixels from the image, faster than getpixel. *)
  let pixels := load img in
  (* Clear buffer *)
  (r <- attr buf ;; b <- deref r ;;
   for_each (range (Z.of_nat (length b)))
            (fun i => r <- attr buf ;; store r i 0)) ;;
  (* Iterate through the pixels *)
  for_each (range width) (fun x =>
    for_each (range height) (fun y =>
      image_pixel img pixels x y)).

Definition image_with (img : Image) : M unit :=
  (* determine our effective width/height, taking rotation into account *)
  w <- attr width ;;
  h <- attr height ;;
  rot <- attr rotation ;;
  let '(width, height) := if (rot =? 1) || (rot =? 3) then (h, w) else (w, h) in
  if negb (String.eqb (mode img) "1") then raise (ValueError ImageMode)
  else
    let '(imwidth, imheight) := size img in
    if negb (imwidth =? width) || negb (imheight =? height)
    then raise (ValueError (ImageDimensions width height))
    else fun st =>
      if numpy st then image_numpy img st
      else image_loop img width height st.

End image.

(** [image(img)]: in the source the ["RGB"] branch calls
    [self.pixel(x, y, pixels[(x, y)])]. *)
Definition image : Image -> M unit := image_with pixel.

(** ** The operations of the display, as a caller sees them *)

Inductive operation :=
| SetPixel (x y : Z) (c : color)
| Clear
| Refresh
| LoadImage (img : Image).

Definition run (op : operation) : M unit :=
  match op with
  | SetPixel x y c => pixel x y c
  | Clear => clear
  | Refresh => show
  | LoadImage img => image img
  end.

(** The state a call leaves behind, whether it returned or raised. *)
Definition after {A} (c : M A) (st : state) : state := snd (c st).


(** The bytes a call puts on the wire. *)
Definition transmitted {A} (c : M A) (st : state) : list Z :=
  drop (length (wire (spi_device (self st))))
       (wire (spi_device (self (after c st)))).

(** The bytearray [self.buffer] names, the one [show] transmits. *)
Definition pixel_buffer (st : state) : option bytearray :=
  heap st !! buffer (self st).

(** ** The wire format, in the words of the protocol description *)

(** The command byte: the write-command flag with the toggle bit. *)
Definition command_byte (toggle : bool) : Z :=
  Z.lor 0x80 (if toggle then 0x40 else 0x00).

(** The same command in the panel's own bit order, least significant bit
    first: write command [0x01], VCOM [0x02]. *)
Definition command_lsb (toggle : bool) : Z :=
  Z.lor 0x01 (if toggle then 0x02 else 0x00).

(** Row [r] of the buffer: [bytes[r*rowBytes .. (r+1)*rowBytes)]. *)
Definition row (rowBytes : Z) (bytes : bytearray) (r : Z) : list Z :=
  take (Z.to_nat rowBytes) (drop (Z.to_nat (r * rowBytes)) bytes).

(** One line on the wire: bit-reversed 1-based line address, the row's
    bytes as stored, a zero line terminator. *)
Definition line_frame (rowBytes : Z) (bytes : bytearray) (r : Z) : list Z :=
  reverse_bit (r + 1) :: row rowBytes bytes r ++ [0x00].

(** A whole frame: command byte, the lines of rows [0 .. height-1] in
    order, a zero frame terminator. *)
Definition frame (toggle : bool) (rowBytes height : Z) (bytes : bytearray) : list Z :=
  command_byte toggle
    :: concat (line_frame rowBytes bytes <$> range height) ++ [0x00].

(** The specification's reading of the command byte: it goes through
    [reverse_bit] on its way to the wire. *)
Definition command_sent_reversed (st : state) : Prop :=
  head (transmitted show st) = Some (reverse_bit (command_byte (_vcom (self st)))).

(** The rotation-adjusted panel dimensions [image] compares with. *)
Definition effective_size (d : SharpMemoryDisplay) : Z * Z :=
  if (rotation d =? 1) || (rotation d =? 3) then (height d, width d)
  else (width d, height d).

(** The specification's reading of a size mismatch: the image is always
    refused for its size, with the pixel buffer left as it was. *)
Definition mismatch_reported_as_size (img : Image) (st : state) : Prop :=
  size img <> effective_size (self st) ->
  exists w h, fst (image img st) = Raise (ValueError (ImageDimensions w h))
              /\ pixel_buffer (after (image img) st) = pixel_buffer st.


(** The same program state with [numpy] importable or not. *)
Definition with_numpy (np : bool) (st : state) : state :=
  mkState (self st) (heap st) np.

(** The specification's reading of the two paths of [image]: they leave
    the same pixel buffer. *)
Definition paths_agree (img : Image) (st : state) : Prop :=
  pixel_buffer (after (image img) (with_numpy true st))
  = pixel_buffer (after (image img) (with_numpy false st)).

(** ** Sample displays and images *)

(** A bus that never fails, nothing sent yet. *)
Definition idle_bus : SPIDevice := mkSPI [] false None.


(** The state right after construction, or a display of no use when the
    constructor raised. *)
Definition constructed (np : bool) (bus : SPIDevice) (width height : Z) : state :=
  match __init__ np bus width height with
  | Return st => st
  | Raise _ => mkState (mkDisplay bus [] O O width height width 0 true) [] np
  end.

(** An 8x1 panel whose only row byte is [0b10000000]. *)
Definition panel_8x1 : state :=
  with_heap (fun _ => [[0x80]]) (constructed false idle_bus 8 1).

(** An 8x0 panel. *)
Definition panel_8x0 : state := constructed false idle_bus 8 0.

(** A 16x2 panel turned by 180 degrees ([rotation = 2]). *)
Definition panel_16x2_rot2 : state :=
  with_self (set_rotation 2) (constructed false idle_bus 16 2).

(** A 16x2 one-bit image with only the top left pixel lit. *)
Definition corner_dot : Image :=
  mkImage "1" (16, 2) (fun x y => if (x =? 0) && (y =? 0) then Int 255 else Int 0).

(** A 4x4 RGB image, all black. *)
Definition rgb_4x4 : Image :=
  mkImage "RGB" (4, 4) (fun _ _ => Tuple [0; 0; 0]).

(** A 16x2 one-bit image with two pixels lit. *)
Definition dots_16x2 : Image :=
  mkImage "1" (16, 2) (fun x y => if (x =? 9 * y + 2) then Int 255 else Int 0).

(** The statements of [show] from the first [spi.write] on. *)
Definition show_rest : M unit :=
  (b <- attr _buf ;; spi_write b) ;;
  w <- attr width ;;
  h <- attr height ;;
  for_ (range h) (show_line (w / 8)) 0 ;;
  b <- attr _buf ;; spi_write b.

(** Chip select driven to [v]. *)
Definition select (v : bool) (st : state) : state :=
  with_self (fun d => set_spi_device (mkSPI (wire (spi_device d)) v (credit (spi_device d))) d) st.

(** The assignments of [show] before the first [spi.write], on a scratch
    bytearray of one byte. *)
Definition toggled (d : SharpMemoryDisplay) : SharpMemoryDisplay :=
  set__vcom (negb (_vcom d)) (set__buf [command_byte (_vcom d)] d).

Arguments reverse_bit : simpl never.

(** ** Relations between the state before and after a call *)

(** Every run of [c], returning or raising, takes a state to one related
    to it by [R]. *)
Definition respects {A} (R : relation state) (c : M A) : Prop :=
  forall st, R st (after c st).

(** The relation "the call left [f] as it was". *)
Definition kept {T} (f : state -> T) : relation state := fun st st' => f st' = f st.

(** The relation "the call only added bytes to the wire". *)
Definition wire_grows : relation state := fun st st' =>
  wire (spi_device (self st)) `prefix_of` wire (spi_device (self st')).

(** Everything but the bus, the toggle and the contents of the scratch
    byte. *)
Definition show_view (st : state) :=
  (heap st, numpy st, buffer (self st), buf (self st),
   (width (self st), height (self st), stride (self st), rotation (self st)),
   length (_buf (self st)), bool_decide (credit (spi_device (self st)) = None)).

(** From the first write on, the toggle stays as it is. *)
Definition vcom_view (st : state) : bool := _vcom (self st).

(** The state after writing [data] and leaving [last] in the scratch byte. *)
Definition wrote (data : list Z) (last : Z) (st : state) : state :=
  with_self (fun d =>
    set_spi_device (mkSPI (wire (spi_device d) ++ data) (cs (spi_device d))
                          (credit (spi_device d)))
                   (set__buf [last] d)) st.

(** The names of the bytearrays, the panel geometry and the length of
    every bytearray on the heap. *)
Definition alloc_view (st : state) :=
  (buffer (self st), buf (self st),
   (width (self st), height (self st), stride (self st), rotation (self st)),
   numpy st, length <$> heap st).

(** The length of the pixel buffer. *)
Definition buffer_len (st : state) : option Z :=
  (fun b => Z.of_nat (length b)) <$> pixel_buffer st.

(** Whether an operation works on the pixel buffer in place: all do but
    [image] when [numpy] is there. *)
Definition in_place (op : operation) (st : state) : bool :=
  match op with
  | LoadImage _ => negb (numpy st)
  | _ => true
  end.

(** ** The per-pixel path of [image], bit by bit *)

(** What [set_pixel] makes of a byte when it sets bit [offset]. *)
Definition set_bit (old offset : Z) : Z :=
  Z.lor (Z.land old (Z.lnot (Z.shiftl 0x01 offset)))
        (Z.shiftl (Z.b2z (color_ne_0 (Int 1))) offset).

(** Whether the image has pixel [(x, y)] lit. *)
Definition lit (img : Image) (p : Z * Z) : bool := truthy (load img p.1 p.2).

(** The byte and the bit of a buffer of [8 * rb] pixels a row that
    [set_pixel] goes to for pixel [(x, y)]. *)
Definition byte_of (rb : Z) (p : Z * Z) : nat := Z.to_nat ((p.2 * (8 * rb) + p.1) / 8).
Definition bit_of (p : Z * Z) : Z := Z.land (7 - p.1) 0x07.

(** The buffer after the loop body for pixel [p]. *)
Definition paint (img : Image) (rb : Z) (b : bytearray) (p : Z * Z) : bytearray :=
  if lit img p then <[byte_of rb p := set_bit (b !!! byte_of rb p) (bit_of p)]> b else b.

(** The pixels in the order the double loop visits them. *)
Definition scan (w h : Z) : list (Z * Z) :=
  x ← range w; (fun y => (x, y)) <$> range h.

Definition is_byte (v : Z) : Prop := 0 <= v < 256.

(** Whether pixel [p] lands on bit [k] of byte [j]. *)
Definition hit (rb : Z) (j : nat) (k : Z) (p : Z * Z) : bool :=
  bool_decide (byte_of rb p = j) && (bit_of p =? k).

(** The pixel shown by bit [k] of byte [j]: most significant bit leftmost,
    [rb] bytes a row. *)
Definition pixel_at (rb : Z) (j : nat) (k : Z) : Z * Z :=
  (8 * (Z.of_nat j mod rb) + (7 - k), Z.of_nat j / rb).

(** A buffer the per-pixel loop can work on: bytes, as many as a panel of
    [rb] bytes a row and [h] rows needs. *)
Definition workable (rb h : Z) (b : bytearray) : Prop :=
  Forall is_byte b /\ length b = Z.to_nat (rb * h).

(** ** A bus that gives up after some writes *)

(** The [spi.write] calls of one turn of the loop of [show], in order. *)
Definition line_writes (rowBytes : Z) (bytes : bytearray) (r : Z) : list (list Z) :=
  [[reverse_bit (r + 1)]; row rowBytes bytes r; [0x00]].

(** The [spi.write] calls of one [show], in order: the command byte, three
    writes a row, and the closing write of the scratch byte. *)
Definition show_writes (toggle : bool) (rowBytes height : Z) (bytes : bytearray)
  : list (list Z) :=
  [command_byte toggle]
    :: concat (line_writes rowBytes bytes <$> range height)
    ++ [[if 0 <? height then 0x00 else command_byte toggle]].

(** [c], started with [a] in the scratch byte on a panel of geometry [g]
    whose buffer holds [bytes], calls [spi.write] with [ws] in this order. On
    a bus with [n] writes left it gets through the first [n] of them; it
    returns [r] with [a'] in the scratch byte if that is all of them, and
    raises the bus error otherwise. *)
Definition performs (bytes : bytearray) (g : Z * Z) {A}
    (a : Z) (c : M A) (ws : list (list Z)) (a' : Z) (r : A) : Prop :=
  forall st n,
    _buf (self st) = [a] ->
    pixel_buffer st = Some bytes ->
    (width (self st), height (self st)) = g ->
    credit (spi_device (self st)) = Some n ->
    wire (spi_device (self (after c st)))
    = wire (spi_device (self st)) ++ concat (take n ws) /\
    credit (spi_device (self (after c st))) = Some (n - length ws)%nat /\
    if decide (length ws <= n)%nat
    then fst (c st) = Return r /\
         _buf (self (after c st)) = [a'] /\
         pixel_buffer (after c st) = Some bytes /\
         (width (self (after c st)), height (self (after c st))) = g
    else fst (c st) = Raise OSError.

(** ** [image] and what comes after it *)

(** A panel as [__init__] leaves it and drawing keeps it: not rotated, a
    width that is a multiple of 8, and [buf] and [buffer] naming one
    bytearray of [(width // 8) * height] bytes. *)
Definition upright (st : state) : Prop :=
  rotation (self st) = 0 /\
  stride (self st) = width (self st) /\
  0 <= width (self st) /\ 0 <= height (self st) /\
  width (self st) mod 8 = 0 /\
  buf (self st) = buffer (self st) /\
  (fun b => Z.of_nat (length b)) <$> pixel_buffer st
  = Some (width (self st) / 8 * height (self st)).

(** An image [image] accepts for the panel: one bit deep and of the
    panel's size. *)
Definition fits (img : Image) (st : state) : Prop :=
  mode img = "1" /\ size img = effective_size (self st).

(** What [image] packs the image into: [imwidth // 8] bytes a row, row
    after row. *)
Definition packed (img : Image) : bytearray := flatten (packbits (asarray img)).

(** Everything about the display but which bytearray [buffer] names; and
    the [numpy] flag. *)
Definition panel_view (st : state) :=
  (spi_device (self st), _buf (self st), _vcom (self st),
   (width (self st), height (self st), stride (self st), rotation (self st)),
   buf (self st), numpy st).

(** The pixel buffer as seen by a statement that stores into bytearray
    [r]: nothing to see if [r] is the pixel buffer itself. *)
Definition other_view (r : ref) (st : state) :=
  (buffer (self st),
   if decide (r = buffer (self st)) then None else heap st !! buffer (self st)).

(** The operations that draw through the frame buffer. *)
Definition draws (op : operation) : bool :=
  match op with
  | SetPixel _ _ _ | Clear => true
  | Refresh | LoadImage _ => false
  end.

(** ** The address byte, by its bits *)

(** The bit mirror of the protocol description, written without the
    driver's [reverse_bit]: bit [i] of the value goes to bit [7 - i] (bit 0
    to bit 7, bit 1 to bit 6, and so on). *)
Definition bit_mirror (b : Z) : Z :=
  foldr (fun i acc => Z.lor acc (Z.shiftl (Z.b2z (Z.testbit b i)) (7 - i))) 0 (range 8).

(** One line and a whole frame on the wire, the line address being the
    mirror of the 1-based row number. *)
Definition mirrored_line (rowBytes : Z) (bytes : bytearray) (r : Z) : list Z :=
  bit_mirror (r + 1) :: row rowBytes bytes r ++ [0x00].

Definition mirrored_frame (toggle : bool) (rowBytes height : Z) (bytes : bytearray)
  : list Z :=
  command_byte toggle
    :: concat (mirrored_line rowBytes bytes <$> range height) ++ [0x00].

(** An 8x3 panel with three different row bytes. *)
Definition panel_8x3 : state :=
  with_heap (fun _ => [[0x81; 0x42; 0x24]]) (constructed false idle_bus 8 3).


(** * Properties *)

(** ** reverse_bit *)

Lemma reverse_bit_iter_range (k : nat) (num : Z) :
  0 <= fst (Nat.iter k reverse_bit_step (0, num)) < 2 ^ Z.of_nat k.
Proof.
  induction k as [|k IH].
  - simpl. lia.
  - rewrite Nat2Z.inj_succ, Z.pow_succ_r by lia.
    simpl Nat.iter.
    destruct (Nat.iter k reverse_bit_step (0, num)) as [result rest].
    simpl in IH. unfold reverse_bit_step. simpl fst.
    rewrite Z.shiftl_mul_pow2 by lia.
    assert (Hbit : 0 <= Z.land rest 1 < 2).
    { change 1 with (Z.ones 1). rewrite Z.land_ones by lia.
      apply Z.mod_pos_bound. lia. }
    change (2 ^ 1) with 2. lia.
Qed.

(** Whatever int goes in, a byte comes out. *)
Lemma reverse_bit_range (num : Z) : 0 <= reverse_bit num < 256.
Proof. apply (reverse_bit_iter_range 8 num). Qed.

(** A property checked on all of [range(256)] holds of every byte. *)
Lemma bytes_all (P : Z -> bool) :
  forallb P (range 256) = true -> forall b, 0 <= b <= 255 -> P b = true.
Proof.
  intros Hall b Hb.
  rewrite forallb_forall in Hall. apply Hall.
  apply list_elem_of_In, elem_of_seqZ. lia.
Qed.

(** C5: [reverse_bit] is an involution on bytes: for every [b] in
    [0, 255], [reverse_bit (reverse_bit b) = b]. *)
Theorem reverse_bit_involutive (b : Z) :
  0 <= b <= 255 -> reverse_bit (reverse_bit b) = b.
Proof.
  intros Hb.
  apply Z.eqb_eq.
  apply (bytes_all (fun b => reverse_bit (reverse_bit b) =? b)); [|exact Hb].
  vm_compute. reflexivity.
Qed.

Lemma reverse_bit_involutive_witness :
  0 <= 0x2C <= 255 /\ reverse_bit 0x2C = 0x34 /\ reverse_bit (reverse_bit 0x2C) = 0x2C.
Proof.
  split; [lia|]. split; [reflexivity|].
  apply (reverse_bit_involutive 0x2C). lia.
Defined.

(** The bit mirror: bit [i] of the result is bit [7 - i] of the byte. *)
Lemma reverse_bit_mirror (b i : Z) :
  0 <= b <= 255 -> 0 <= i <= 7 ->
  Z.testbit (reverse_bit b) i = Z.testbit b (7 - i).
Proof.
  intros Hb Hi.
  assert (Hall : forallb (fun i => Bool.eqb (Z.testbit (reverse_bit b) i)
                                            (Z.testbit b (7 - i)))
                         (range 8) = true).
  { apply (bytes_all (fun b => forallb (fun i => Bool.eqb (Z.testbit (reverse_bit b) i)
                                                        (Z.testbit b (7 - i))) (range 8)));
      [vm_compute; reflexivity | exact Hb]. }
  rewrite forallb_forall in Hall.
  apply Bool.eqb_prop, Hall, list_elem_of_In, elem_of_seqZ. lia.
Qed.

(** Two bytes with the same eight bits are the same byte. *)
Lemma byte_eq (a b : Z) :
  is_byte a -> is_byte b ->
  (forall k, 0 <= k < 8 -> Z.testbit a k = Z.testbit b k) -> a = b.
Proof.
  intros Ha Hb Hbits. apply Z.bits_inj'. intros k Hk.
  destruct (Z.lt_ge_cases k 8) as [Hlt|Hge]; [apply Hbits; lia|].
  rewrite <- (Z.mod_small a (2 ^ 8)), <- (Z.mod_small b (2 ^ 8)) by exact Ha || exact Hb.
  now rewrite !Z.mod_pow2_bits_high by lia.
Qed.

Lemma land_1_testbit (n : Z) : Z.land n 1 = Z.b2z (Z.testbit n 0).
Proof.
  change 1 with (Z.ones 1). rewrite Z.land_ones by lia.
  now rewrite Z.bit0_mod.
Qed.

(** After [k] turns of the loop, [num] has lost its [k] low bits and
    [result] holds them in reverse order. *)
Lemma reverse_bit_iter_bits (k : nat) (num : Z) :
  snd (Nat.iter k reverse_bit_step (0, num)) = Z.shiftr num (Z.of_nat k) /\
  forall i, 0 <= i < Z.of_nat k ->
    Z.testbit (fst (Nat.iter k reverse_bit_step (0, num))) i
    = Z.testbit num (Z.of_nat k - 1 - i).
Proof.
  induction k as [|k [IHnum IHbits]].
  - split; [reflexivity | intros i Hi; lia].
  - simpl Nat.iter.
    destruct (Nat.iter k reverse_bit_step (0, num)) as [result rest].
    simpl in IHnum, IHbits. subst rest.
    unfold reverse_bit_step. cbn [fst snd]. split.
    + rewrite Z.shiftr_shiftr by lia. f_equal. lia.
    + intros i Hi.
      rewrite land_1_testbit, Z.shiftr_spec by lia.
      rewrite Z.shiftl_mul_pow2 by lia. change (2 ^ 1) with 2.
      rewrite (Z.mul_comm result 2).
      destruct (Z.eq_dec i 0) as [->|Hne].
      * rewrite Z.testbit_0_r. f_equal. lia.
      * replace i with (Z.succ (i - 1)) at 1 by lia.
        rewrite Z.testbit_succ_r by lia.
        rewrite IHbits by lia. f_equal. lia.
Qed.

(** The mirror on the low byte of any integer. *)
Lemma reverse_bit_bits (num i : Z) :
  0 <= i <= 7 -> Z.testbit (reverse_bit num) i = Z.testbit num (7 - i).
Proof.
  intros Hi. unfold reverse_bit.
  rewrite (proj2 (reverse_bit_iter_bits 8 num)) by lia. f_equal.
Qed.

(** The bits of the mirror of the protocol description. *)
Lemma bit_mirror_bits (b i : Z) :
  0 <= i <= 7 ->
  is_byte (bit_mirror b) /\ Z.testbit (bit_mirror b) i = Z.testbit b (7 - i).
Proof.
  intros Hi. unfold bit_mirror.
  change (range 8) with [0; 1; 2; 3; 4; 5; 6; 7]. cbn [foldr].
  assert (Hcase : i = 0 \/ i = 1 \/ i = 2 \/ i = 3 \/ i = 4 \/ i = 5 \/ i = 6 \/ i = 7) by lia.
  destruct Hcase as [->|[->|[->|[->|[->|[->|[->| ->]]]]]]];
    match goal with |- context [Z.testbit _ (7 - ?k)] =>
      let v := eval vm_compute in (7 - k) in change (7 - k) with v
    end;
    generalize (Z.testbit b 0) (Z.testbit b 1) (Z.testbit b 2) (Z.testbit b 3)
               (Z.testbit b 4) (Z.testbit b 5) (Z.testbit b 6) (Z.testbit b 7);
    intros b0 b1 b2 b3 b4 b5 b6 b7;
    destruct b0, b1, b2, b3, b4, b5, b6, b7; vm_compute; repeat split; congruence.
Qed.

(** The driver's loop computes the mirror of the protocol description, on
    every integer. *)
Lemma reverse_bit_is_bit_mirror (num : Z) : reverse_bit num = bit_mirror num.
Proof.
  apply byte_eq.
  - apply reverse_bit_range.
  - apply (bit_mirror_bits num 0). lia.
  - intros k Hk. rewrite reverse_bit_bits by lia.
    symmetry. apply bit_mirror_bits. lia.
Qed.

(** ** Reasoning about statements *)

Lemma after_bind {A B} (c : M A) (k : A -> M B) (st : state) :
  after (bind c k) st
  = match c st with
    | (Return a, st') => after (k a) st'
    | (Raise _, st') => st'
    end.
Proof. unfold after, bind. destruct (c st) as [[a|e] st']; reflexivity. Qed.

Lemma after_with_spi_device {A} (body : M A) (st : state) :
  after (with_spi_device body) st = select false (after body (select true st)).
Proof.
  unfold after, with_spi_device. fold (select true st).
  destruct (body (select true st)) as [r st']. reflexivity.
Qed.

Section respects.

(** A relation between the state before and the state after that is
    reflexive and transitive carries over from the statements of a block to
    the block, whether the block returns or raises. *)
Context (R : relation state) `{!PreOrder R}.

Lemma respects_ret {A} (a : A) : respects R (ret a).
Proof. intros st. reflexivity. Qed.

Lemma respects_raise {A} (e : exception) : respects R (@raise A e).
Proof. intros st. reflexivity. Qed.

Lemma respects_lift {A} (o : outcome A) : respects R (lift o).
Proof. intros st. reflexivity. Qed.

Lemma respects_attr {A} (g : SharpMemoryDisplay -> A) : respects R (attr g).
Proof. intros st. reflexivity. Qed.

Lemma respects_deref (r : ref) : respects R (deref r).
Proof. intros st. unfold after, deref. destruct (heap st !! r); reflexivity. Qed.

Lemma respects_bind {A B} (c : M A) (k : A -> M B) :
  respects R c -> (forall a, respects R (k a)) -> respects R (bind c k).
Proof.
  intros Hc Hk st. rewrite after_bind.
  specialize (Hc st). unfold after in Hc.
  destruct (c st) as [[a|e] st']; simpl in Hc.
  - transitivity st'; [exact Hc | apply Hk].
  - exact Hc.
Qed.

Lemma respects_for_ {A B} (body : A -> B -> M B) (xs : list A) :
  (forall x acc, respects R (body x acc)) -> forall acc, respects R (for_ xs body acc).
Proof.
  intros Hbody. induction xs as [|x xs IH]; intros acc; simpl.
  - apply respects_ret.
  - apply respects_bind; [apply Hbody | exact IH].
Qed.

Lemma respects_for_each {A} (body : A -> M unit) (xs : list A) :
  (forall x, respects R (body x)) -> respects R (for_each xs body).
Proof. intros Hbody. apply respects_for_. intros x _. apply Hbody. Qed.

Lemma respects_if {A} (b : bool) (c1 c2 : M A) :
  respects R c1 -> respects R c2 -> respects R (if b then c1 else c2).
Proof. destruct b; auto. Qed.

Lemma respects_with_spi_device {A} (body : M A) :
  (forall v st, R st (select v st)) ->
  respects R body -> respects R (with_spi_device body).
Proof.
  intros Hsel Hbody st. rewrite after_with_spi_device.
  transitivity (select true st); [apply Hsel|].
  transitivity (after body (select true st)); [apply Hbody | apply Hsel].
Qed.

End respects.

#[local] Instance kept_preorder {T} (f : state -> T) : PreOrder (kept f).
Proof.
  split.
  - intros st. reflexivity.
  - intros st1 st2 st3 H12 H23. unfold kept in *. congruence.
Qed.

#[local] Instance wire_grows_preorder : PreOrder wire_grows.
Proof.
  split.
  - intros st. unfold wire_grows. reflexivity.
  - intros st1 st2 st3. unfold wire_grows. apply transitivity.
Qed.

Create HintDb respects.
#[local] Hint Resolve respects_ret respects_raise respects_lift respects_attr
  respects_deref : respects.

Ltac respects_step :=
  first [ solve [auto with respects typeclass_instances]
        | apply respects_if
        | apply respects_for_each; [typeclasses eauto | intros ?]
        | apply respects_for_; [typeclasses eauto | intros ? ?]
        | apply respects_bind; [typeclasses eauto | | intros ?] ].

Ltac respects_block := cbv zeta; repeat respects_step.

(** ** What [show] leaves alone *)

Lemma length_setitem (b b' : bytearray) (i v : Z) :
  setitem b i v = Return b' -> length b' = length b.
Proof.
  unfold setitem. destruct (py_index _ i); [|discriminate].
  destruct (_ && _); [|discriminate].
  intros [= <-]. apply length_insert.
Qed.

Lemma setitem_scratch (a v : Z) : 0 <= v < 256 -> setitem [a] 0 v = Return [v].
Proof.
  intros Hv. unfold setitem. simpl.
  destruct (Z.leb_spec 0 v), (Z.ltb_spec v 256); try lia. reflexivity.
Qed.

Lemma show_view__buf_setitem i v : respects (kept show_view) (_buf_setitem i v).
Proof.
  intros st. unfold kept, after, _buf_setitem, bind, attr, lift, assign.
  destruct (setitem (_buf (self st)) i v) as [b'|e] eqn:E; simpl; [|reflexivity].
  unfold show_view; simpl. rewrite (length_setitem _ _ _ _ E). reflexivity.
Qed.

Lemma show_view__buf_getitem i : respects (kept show_view) (_buf_getitem i).
Proof. unfold _buf_getitem. respects_block. Qed.

Lemma show_view_spi_write data : respects (kept show_view) (spi_write data).
Proof.
  intros st. unfold kept, after, spi_write, show_view.
  destruct (credit (spi_device (self st))) as [[|n]|] eqn:E; simpl; rewrite ?E; reflexivity.
Qed.

Lemma show_view_set__vcom v : respects (kept show_view) (assign (set__vcom v)).
Proof. intros st. reflexivity. Qed.

#[local] Hint Resolve show_view__buf_setitem show_view__buf_getitem
  show_view_spi_write show_view_set__vcom : respects.

Lemma show_view_show : respects (kept show_view) show.
Proof.
  unfold show. apply respects_with_spi_device; [typeclasses eauto | reflexivity |].
  respects_block.
Qed.

Lemma vcom_view__buf_setitem i v : respects (kept vcom_view) (_buf_setitem i v).
Proof.
  intros st. unfold kept, after, _buf_setitem, bind, attr, lift, assign.
  destruct (setitem (_buf (self st)) i v); reflexivity.
Qed.

Lemma vcom_view_spi_write data : respects (kept vcom_view) (spi_write data).
Proof.
  intros st. unfold kept, after, spi_write.
  destruct (credit (spi_device (self st))) as [[|n]|]; reflexivity.
Qed.

#[local] Hint Resolve vcom_view__buf_setitem vcom_view_spi_write : respects.

Lemma vcom_view_show_rest : respects (kept vcom_view) show_rest.
Proof. unfold show_rest, show_line. respects_block. Qed.

(** Bytes once written stay written. *)
Lemma wire_grows__buf_setitem i v : respects wire_grows (_buf_setitem i v).
Proof.
  intros st. unfold wire_grows, after, _buf_setitem, bind, attr, lift, assign.
  destruct (setitem (_buf (self st)) i v); reflexivity.
Qed.

Lemma wire_grows_spi_write data : respects wire_grows (spi_write data).
Proof.
  intros st. unfold wire_grows, after, spi_write.
  destruct (credit (spi_device (self st))) as [[|n]|]; simpl;
    try reflexivity; apply prefix_app_r; reflexivity.
Qed.

#[local] Hint Resolve wire_grows__buf_setitem wire_grows_spi_write : respects.

Lemma wire_grows_show_line len h : 
  respects wire_grows (for_ (range h) (show_line len) 0).
Proof. unfold show_line. respects_block. Qed.

(** ** Running [show] *)

(** On a scratch bytearray of one byte, [show] is: select the panel, set
    the command byte and flip the toggle, then write. *)
Lemma show_unfold (st : state) (a : Z) :
  _buf (self st) = [a] ->
  show st = with_spi_device (fun s => show_rest (with_self toggled s)) st.
Proof.
  destruct st as [[dev scratch bf bu wd ht sd rot vc] hp np]. simpl.
  intros ->. destruct vc; reflexivity.
Qed.

Lemma scratch_byte (b : bytearray) : length b = 1%nat -> exists a, b = [a].
Proof. destruct b as [|a [|? ?]]; try discriminate. intros _. now exists a. Qed.

Lemma command_byte_range (toggle : bool) : 0 <= command_byte toggle < 256.
Proof. destruct toggle; vm_compute; split; congruence. Qed.

(** The slice [show] takes is the row of the protocol description. *)
Lemma py_slice_row (b : bytearray) (rb r : Z) :
  0 <= rb -> 0 <= r -> py_slice b (r * rb) (r * rb + rb) = row rb b r.
Proof.
  intros Hrb Hr. unfold py_slice, row, slice_bound.
  assert (0 <= r * rb) by nia.
  destruct (Z.ltb_spec (r * rb) 0); [lia|].
  destruct (Z.ltb_spec (r * rb + rb) 0); [lia|].
  destruct (Z.le_gt_cases (Z.of_nat (length b)) (r * rb)) as [Hout|Hin].
  - rewrite !Z.min_r by lia. rewrite Z.sub_diag. simpl.
    rewrite (drop_ge b (Z.to_nat (r * rb))) by lia. now rewrite take_nil.
  - rewrite (Z.min_l (r * rb)) by lia.
    destruct (Z.le_gt_cases (r * rb + rb) (Z.of_nat (length b))).
    + rewrite Z.min_l by lia. f_equal. lia.
    + rewrite Z.min_r by lia.
      rewrite !take_ge; [reflexivity | | ]; rewrite length_drop; lia.
Qed.

Ltac state_simpl :=
  cbv beta iota delta
    [self heap numpy spi_device _buf buffer buf width height stride rotation _vcom
     wire cs credit with_self with_heap set_spi_device set__buf set__vcom set_buffer
     select wrote toggled fst snd option_fmap option_map fmap].

Lemma wrote_nothing (st : state) (a : Z) : _buf (self st) = [a] -> wrote [] a st = st.
Proof.
  destruct st as [[[w c cr] scratch bf bu wd ht sd rot vc] hp np].
  state_simpl. intros ->. now rewrite app_nil_r.
Qed.

Lemma wrote_wrote (d1 d2 : list Z) (l1 l2 : Z) (st : state) :
  wrote d2 l2 (wrote d1 l1 st) = wrote (d1 ++ d2) l2 st.
Proof.
  destruct st as [[[w c cr] scratch bf bu wd ht sd rot vc] hp np].
  state_simpl. now rewrite app_assoc.
Qed.

(** One turn of the loop on a bus that never fails. *)
Lemma show_line_run (rb line sf a : Z) (b : bytearray) (st : state) :
  _buf (self st) = [a] ->
  credit (spi_device (self st)) = None ->
  pixel_buffer st = Some b ->
  show_line rb line sf st
  = (Return (sf + rb),
     wrote (reverse_bit (line + 1) :: py_slice b sf (sf + rb) ++ [0]) 0 st).
Proof.
  destruct st as [[[w c cr] scratch bf bu wd ht sd rot vc] hp np].
  unfold pixel_buffer. simpl. intros -> -> Hb.
  unfold show_line, _buf_setitem, bind, attr, lift, assign, deref, spi_write, ret; simpl.
  rewrite (setitem_scratch a _ (reverse_bit_range _)). simpl.
  rewrite Hb. simpl.
  unfold wrote, with_self; simpl.
  rewrite <- !app_assoc. reflexivity.
Qed.

(** The whole loop on a bus that never fails: [n] lines from row [k] on. *)
Lemma show_lines_run (rb : Z) (b : bytearray) (n : nat) :
  0 <= rb ->
  forall k a st, 0 <= k ->
  _buf (self st) = [a] ->
  credit (spi_device (self st)) = None ->
  pixel_buffer st = Some b ->
  for_ (seqZ k (Z.of_nat n)) (show_line rb) (k * rb) st
  = (Return ((k + Z.of_nat n) * rb),
     wrote (concat (line_frame rb b <$> seqZ k (Z.of_nat n)))
           (match n with O => a | S _ => 0 end) st).
Proof.
  intros Hrb. induction n as [|n IH]; intros k a st Hk Hscratch Hcredit Hb.
  - simpl. unfold ret. rewrite (wrote_nothing st a Hscratch), Z.add_0_r. reflexivity.
  - rewrite seqZ_cons by lia.
    replace (Z.pred (Z.of_nat (S n))) with (Z.of_nat n) by lia.
    simpl for_. unfold bind at 1.
    rewrite (show_line_run rb k (k * rb) a b st Hscratch Hcredit Hb).
    replace (k * rb + rb) with (Z.succ k * rb) by lia.
    set (st1 := wrote _ 0 st).
    assert (H1 : _buf (self st1) = [0]) by reflexivity.
    assert (Hc1 : credit (spi_device (self st1)) = None) by exact Hcredit.
    assert (Hb1 : pixel_buffer st1 = Some b) by exact Hb.
    rewrite (IH (Z.succ k) 0 st1 ltac:(lia) H1 Hc1 Hb1).
    subst st1.
    rewrite wrote_wrote.
    f_equal; [f_equal; lia|].
    rewrite fmap_cons, concat_cons. unfold line_frame at 2.
    rewrite <- py_slice_row by lia.
    replace (Z.succ k * rb) with (k * rb + rb) by lia.
    destruct n; reflexivity.
Qed.

Lemma show_loop_run (rb h a : Z) (b : bytearray) (st : state) :
  0 <= rb ->
  _buf (self st) = [a] ->
  credit (spi_device (self st)) = None ->
  pixel_buffer st = Some b ->
  for_ (range h) (show_line rb) 0 st
  = (Return (Z.of_nat (Z.to_nat h) * rb),
     wrote (concat (line_frame rb b <$> range h)) (if 0 <? h then 0 else a) st).
Proof.
  intros Hrb Hscratch Hcredit Hb.
  pose proof (show_lines_run rb b (Z.to_nat h) Hrb 0 a st ltac:(lia) Hscratch Hcredit Hb)
    as Hloop.
  assert (Hrange : seqZ 0 (Z.of_nat (Z.to_nat h)) = range h).
  { unfold range, seqZ. now rewrite Nat2Z.id. }
  rewrite Hrange in Hloop. change (0 * rb) with 0 in Hloop.
  change (0 + Z.of_nat (Z.to_nat h)) with (Z.of_nat (Z.to_nat h)) in Hloop. rewrite Hloop.
  f_equal. f_equal.
  destruct (Z.ltb_spec 0 h) as [Hpos|Hnone].
  - destruct (Z.to_nat h) eqn:E; [lia|reflexivity].
  - replace (Z.to_nat h) with O by lia. reflexivity.
Qed.

(** The first write of [show] on a bus that accepts it. *)
Lemma first_write_run (st : state) (a : Z) :
  _buf (self st) = [a] ->
  credit (spi_device (self st)) <> Some O ->
  (b <- attr _buf ;; spi_write b) st
  = (Return tt,
     with_self (fun d => set_spi_device
                  (mkSPI (wire (spi_device d) ++ [a]) (cs (spi_device d))
                         (Nat.pred <$> credit (spi_device d))) d) st).
Proof.
  destruct st as [[[w c cr] scratch bf bu wd ht sd rot vc] hp np]. simpl.
  intros -> Hcr. unfold bind, attr, spi_write. simpl.
  destruct cr as [[|n]|]; [congruence|reflexivity|reflexivity].
Qed.

(** [show] on a bus that never fails, given what its loop does: it
    returns, and the wire has grown by the command byte, what the loop wrote,
    and the closing write of the scratch byte. *)
Lemma show_run_with (st : state) (a z last : Z) (data : list Z) :
  _buf (self st) = [a] ->
  credit (spi_device (self st)) = None ->
  let cmd := command_byte (_vcom (self st)) in
  (forall st2, _buf (self st2) = [cmd] ->
               credit (spi_device (self st2)) = None ->
               pixel_buffer st2 = pixel_buffer st ->
     for_ (range (height (self st))) (show_line (width (self st) / 8)) 0 st2
     = (Return z, wrote data last st2)) ->
  show st
  = (Return tt,
     select false
       (wrote (cmd :: data ++ [last]) last
              (with_self (set__vcom (negb (_vcom (self st)))) st))).
Proof.
  intros Hscratch Hcredit cmd Hloop. rewrite (show_unfold st a Hscratch).
  unfold with_spi_device. fold (select true st).
  set (st1 := with_self toggled (select true st)).
  assert (H1 : _buf (self st1) = [cmd]) by reflexivity.
  assert (Hc1 : credit (spi_device (self st1)) = None) by exact Hcredit.
  unfold show_rest. unfold bind at 1.
  rewrite (first_write_run st1 cmd H1) by (rewrite Hc1; discriminate).
  set (st2 := with_self _ st1).
  assert (H2 : _buf (self st2) = [cmd]) by reflexivity.
  assert (Hc2 : credit (spi_device (self st2)) = None) by (simpl; rewrite Hcredit; reflexivity).
  unfold bind at 1, attr at 1. unfold bind at 1, attr at 1. unfold bind at 1.
  change (width (self st2)) with (width (self st)).
  change (height (self st2)) with (height (self st)).
  rewrite (Hloop st2 H2 Hc2 eq_refl).
  set (st3 := wrote _ last st2).
  assert (H3 : _buf (self st3) = [last]) by reflexivity.
  rewrite (first_write_run st3 last H3) by (simpl; rewrite Hcredit; discriminate).
  f_equal.
  subst st3 st2 st1.
  destruct st as [[[w c cr] scratch bf bu wd ht sd rot vc] hp np].
  cbn [self spi_device credit] in Hcredit. subst cr. subst cmd.
  state_simpl. rewrite <- !app_assoc. reflexivity.
Qed.

(** What a returning [show] put on the wire. *)
Lemma transmitted_wrote (st : state) (data : list Z) (last : Z) (v t : bool) :
  show st = (Return tt, select v (wrote data last (with_self (set__vcom t) st))) ->
  fst (show st) = Return tt /\ transmitted show st = data.
Proof.
  intros Hshow. unfold transmitted, after. rewrite Hshow. split; [reflexivity|].
  state_simpl. apply drop_app_length.
Qed.

Lemma length_concat_const {A} (ls : list (list A)) (c : nat) :
  Forall (fun l => length l = c) ls -> length (concat ls) = (length ls * c)%nat.
Proof.
  induction 1 as [|l ls Hl _ IH]; [reflexivity|].
  simpl. rewrite length_app, Hl, IH. reflexivity.
Qed.

Lemma lookup_concat_const {A} (ls : list (list A)) (c i q : nat) :
  Forall (fun l => length l = c) ls -> (q < c)%nat ->
  concat ls !! (i * c + q)%nat = ls !! i ≫= (fun l => l !! q).
Proof.
  intros Hall Hq. revert i. induction Hall as [|l ls Hl _ IH]; intros i.
  - now rewrite !lookup_nil.
  - destruct i as [|i]; simpl.
    + apply lookup_app_l. lia.
    + replace (c + i * c + q)%nat with (length l + (i * c + q))%nat by lia.
      rewrite lookup_app_r by lia.
      replace (length l + (i * c + q) - length l)%nat with (i * c + q)%nat by lia.
      apply IH.
Qed.

Lemma length_row (rb h r : Z) (bytes : bytearray) :
  Z.of_nat (length bytes) = rb * h -> 0 <= rb -> 0 <= r < h ->
  length (row rb bytes r) = Z.to_nat rb.
Proof.
  intros Hlen Hrb Hr. unfold row.
  rewrite length_take, length_drop.
  assert ((r + 1) * rb <= rb * h) by nia.
  lia.
Qed.

(** ** The frame on the wire *)

(** The frame with its addresses mirrored bit by bit is the frame the
    driver's [reverse_bit] gives. *)
Lemma mirrored_frame_is_frame (t : bool) (rb h : Z) (bytes : bytearray) :
  mirrored_frame t rb h bytes = frame t rb h bytes.
Proof.
  unfold mirrored_frame, frame. do 3 f_equal.
  apply list_fmap_ext. intros _ r _. unfold mirrored_line, line_frame.
  now rewrite reverse_bit_is_bit_mirror.
Qed.

(** The byte that opens line [r] of a frame. *)
Lemma frame_address (t : bool) (rb h r : Z) (bytes : bytearray) :
  Z.of_nat (length bytes) = rb * h -> 0 <= rb -> 0 <= r < h ->
  frame t rb h bytes !! Z.to_nat (1 + r * (rb + 2)) = Some (reverse_bit (r + 1)).
Proof.
  intros Hlen Hrb Hr. unfold frame.
  replace (Z.to_nat (1 + r * (rb + 2)))
    with (S (Z.to_nat r * (Z.to_nat rb + 2) + 0))%nat by nia.
  rewrite lookup_cons_ne_0 by lia. cbn [Nat.pred].
  assert (Hall : Forall (fun l => length l = (Z.to_nat rb + 2)%nat)
                        (line_frame rb bytes <$> range h)).
  { apply Forall_fmap, Forall_forall. intros r' Hr'.
    apply elem_of_seqZ in Hr'. unfold line_frame. simpl.
    rewrite length_app, (length_row _ h) by (assumption || lia). simpl. lia. }
  rewrite lookup_app_l.
  - rewrite (lookup_concat_const _ _ _ _ Hall) by lia.
    unfold range. rewrite list_lookup_fmap, lookup_seqZ_lt by lia.
    simpl. do 2 f_equal. lia.
  - rewrite (length_concat_const _ _ Hall), length_fmap.
    unfold range. rewrite length_seqZ. nia.
Qed.

(** C1: for a display of at least one row whose buffer holds
    [rowBytes * height] bytes ([rowBytes = width // 8]), on a bus that takes
    every write, one [show] returns and puts on the wire exactly the frame
    of the protocol: the command byte, then for each row [r] from [0] to
    [height - 1] the bit mirror of [r + 1], the [rowBytes] bytes of row
    [r] as stored, and a zero, then one more zero; [2 + height * (rowBytes +
    2)] bytes in all.  The address of row [r] is stated three times: as the
    driver's [reverse_bit (r + 1)] (in [frame]), as [bit_mirror (r + 1)],
    which is written without the driver's function (in [mirrored_frame]),
    and bit by bit on the wire: the byte at position
    [1 + r * (rowBytes + 2)] is a byte whose bit [i] is bit [7 - i] of
    [r + 1]. *)
Theorem show_emits_frame (st : state) (bytes : bytearray) :
  length (_buf (self st)) = 1%nat ->
  credit (spi_device (self st)) = None ->
  pixel_buffer st = Some bytes ->
  Z.of_nat (length bytes) = width (self st) / 8 * height (self st) ->
  1 <= height (self st) ->
  fst (show st) = Return tt /\
  transmitted show st
  = frame (_vcom (self st)) (width (self st) / 8) (height (self st)) bytes /\
  (forall r, 0 <= r < height (self st) ->
             length (row (width (self st) / 8) bytes r) = Z.to_nat (width (self st) / 8)) /\
  Z.of_nat (length (transmitted show st))
  = 2 + height (self st) * (width (self st) / 8 + 2) /\
  transmitted show st
  = mirrored_frame (_vcom (self st)) (width (self st) / 8) (height (self st)) bytes /\
  (forall r, 0 <= r < height (self st) ->
     exists a,
       transmitted show st !! Z.to_nat (1 + r * (width (self st) / 8 + 2)) = Some a /\
       0 <= a < 256 /\
       (forall i, 0 <= i <= 7 -> Z.testbit a i = Z.testbit (r + 1) (7 - i))).
Proof.
  intros Hscratch Hcredit Hb Hlen Hh.
  destruct (scratch_byte _ Hscratch) as [a Ha].
  assert (Hrb : 0 <= width (self st) / 8) by nia.
  assert (Hrun := show_run_with st a (Z.of_nat (Z.to_nat (height (self st))) * (width (self st) / 8)) 0
            (concat (line_frame (width (self st) / 8) bytes <$> range (height (self st))))
            Ha Hcredit).
  simpl in Hrun.
  assert (Hloop : forall st2,
             _buf (self st2) = [command_byte (_vcom (self st))] ->
             credit (spi_device (self st2)) = None ->
             pixel_buffer st2 = pixel_buffer st ->
             for_ (range (height (self st))) (show_line (width (self st) / 8)) 0 st2
             = (Return (Z.of_nat (Z.to_nat (height (self st))) * (width (self st) / 8)),
                wrote (concat (line_frame (width (self st) / 8) bytes <$> range (height (self st))))
                      0 st2)).
  { intros st2 H2 Hc2 Hb2.
    rewrite (show_loop_run _ _ _ bytes st2 Hrb H2 Hc2) by (rewrite Hb2; exact Hb).
    destruct (Z.ltb_spec 0 (height (self st))); [reflexivity|lia]. }
  specialize (Hrun Hloop).
  destruct (transmitted_wrote st _ _ _ _ Hrun) as [Hret Hsent].
  assert (Hrows : forall r, 0 <= r < height (self st) ->
             length (row (width (self st) / 8) bytes r) = Z.to_nat (width (self st) / 8)).
  { intros r Hr. apply (length_row _ (height (self st))); assumption. }
  split; [exact Hret|]. split; [exact Hsent|]. split; [exact Hrows|].
  split; [|split].
  - rewrite Hsent. simpl. rewrite length_app. simpl.
    rewrite (length_concat_const _ (Z.to_nat (width (self st) / 8) + 2)).
    + rewrite length_fmap. unfold range. rewrite length_seqZ. lia.
    + apply Forall_fmap, Forall_forall. intros r Hr.
      apply elem_of_seqZ in Hr. unfold line_frame. simpl.
      rewrite length_app, Hrows by lia. simpl. lia.
  - rewrite Hsent. symmetry. apply mirrored_frame_is_frame.
  - intros r Hr. exists (reverse_bit (r + 1)).
    split; [rewrite Hsent; now apply frame_address|].
    split; [apply reverse_bit_range|].
    intros i Hi. now apply reverse_bit_bits.
Qed.

Lemma show_emits_frame_witness :
  (fst (show panel_8x1) = Return tt /\
   transmitted show panel_8x1 = [command_byte true; 0x80; 0x80; 0x00; 0x00] /\
   length (transmitted show panel_8x1) = 5%nat) /\
  (fst (show panel_8x3) = Return tt /\
   transmitted show panel_8x3
   = [command_byte true; 0x80; 0x81; 0x00; 0x40; 0x42; 0x00; 0xC0; 0x24; 0x00; 0x00] /\
   exists a, transmitted show panel_8x3 !! 7%nat = Some a /\
             Z.testbit a 7 = true /\ Z.testbit a 6 = true /\ Z.testbit a 5 = false).
Proof.
  split.
  - destruct (show_emits_frame panel_8x1 [0x80] eq_refl eq_refl eq_refl eq_refl
                ltac:(simpl; lia)) as (Hret & Hsent & _ & _).
    split; [exact Hret|]. rewrite Hsent. split; reflexivity.
  - destruct (show_emits_frame panel_8x3 [0x81; 0x42; 0x24] eq_refl eq_refl eq_refl
                eq_refl ltac:(simpl; lia)) as (Hret & _ & _ & _ & Hsent & Haddr).
    split; [exact Hret|]. split; [rewrite Hsent; reflexivity|].
    destruct (Haddr 2 ltac:(simpl; lia)) as (a & Ha & _ & Hbits).
    exists a. split; [exact Ha|].
    rewrite (Hbits 7), (Hbits 6), (Hbits 5) by lia. repeat split.
Defined.

(** C4 (what the code does): on a display with no rows, the loop does not
    run and the closing write sends the scratch byte as the command left it,
    so the two bytes on the wire are the command byte twice, not the command
    byte and a zero. *)
Theorem show_without_rows (st : state) :
  length (_buf (self st)) = 1%nat ->
  credit (spi_device (self st)) = None ->
  height (self st) = 0 ->
  fst (show st) = Return tt /\
  transmitted show st
  = [command_byte (_vcom (self st)); command_byte (_vcom (self st))] /\
  transmitted show st <> [command_byte (_vcom (self st)); 0x00].
Proof.
  intros Hscratch Hcredit Hh.
  destruct (scratch_byte _ Hscratch) as [a Ha].
  assert (Hrun := show_run_with st a 0 (command_byte (_vcom (self st))) [] Ha Hcredit).
  simpl in Hrun.
  assert (Hloop : forall st2,
             _buf (self st2) = [command_byte (_vcom (self st))] ->
             credit (spi_device (self st2)) = None ->
             pixel_buffer st2 = pixel_buffer st ->
             for_ (range (height (self st))) (show_line (width (self st) / 8)) 0 st2
             = (Return 0, wrote [] (command_byte (_vcom (self st))) st2)).
  { intros st2 H2 _ _. rewrite Hh, (wrote_nothing st2 _ H2). reflexivity. }
  specialize (Hrun Hloop).
  destruct (transmitted_wrote st _ _ _ _ Hrun) as [Hret Hsent].
  split; [exact Hret|]. split; [exact Hsent|].
  rewrite Hsent. destruct (_vcom (self st)); discriminate.
Qed.

Lemma show_without_rows_witness :
  transmitted show panel_8x0 = [0xC0; 0xC0].
Proof.
  destruct (show_without_rows panel_8x0 eq_refl eq_refl eq_refl) as (_ & Hsent & _).
  exact Hsent.
Defined.

(** ** The command byte *)

(** The first write of [show] and what follows it keep the command byte at
    the head of what was sent. *)
Lemma show_sends_command_first (st : state) :
  length (_buf (self st)) = 1%nat ->
  credit (spi_device (self st)) <> Some O ->
  head (transmitted show st) = Some (command_byte (_vcom (self st))).
Proof.
  intros Hscratch Hcredit.
  destruct (scratch_byte _ Hscratch) as [a Ha].
  unfold transmitted, after. rewrite (show_unfold st a Ha).
  fold (after (with_spi_device (fun s => show_rest (with_self toggled s))) st).
  rewrite after_with_spi_device.
  set (st1 := with_self toggled (select true st)).
  assert (H1 : _buf (self st1) = [command_byte (_vcom (self st))]) by reflexivity.
  change (after (fun s => show_rest (with_self toggled s)) (select true st))
    with (after show_rest st1).
  unfold show_rest. rewrite after_bind.
  rewrite (first_write_run st1 _ H1) by exact Hcredit.
  set (st2 := with_self _ st1).
  match goal with |- context [after ?c st2] =>
    assert (Hgrow : respects wire_grows c) by (unfold show_line; respects_block);
    specialize (Hgrow st2); set (st3 := after c st2) in *
  end.
  destruct Hgrow as [more Hmore].
  change (wire (spi_device (self (select false st3)))) with (wire (spi_device (self st3))).
  rewrite Hmore.
  change (wire (spi_device (self st2)))
    with (wire (spi_device (self st)) ++ [command_byte (_vcom (self st))]).
  rewrite <- !app_assoc, drop_app_length. reflexivity.
Qed.

(** C2 (as the code has it): whenever the bus takes the first write, the
    first byte [show] sends is the command byte [0x80 | (0x40 if _vcom)]
    itself, not its bit mirror. No [reverse_bit] is applied at run time: the
    two constants are written down already mirrored, so the byte sent is the
    mirror of the panel's own [0x01 | (0x02 if _vcom)]. *)
Theorem command_byte_sent_as_is (st : state) :
  length (_buf (self st)) = 1%nat ->
  credit (spi_device (self st)) <> Some O ->
  head (transmitted show st) = Some (command_byte (_vcom (self st))) /\
  command_byte (_vcom (self st)) = reverse_bit (command_lsb (_vcom (self st))) /\
  head (transmitted show st) <> Some (reverse_bit (command_byte (_vcom (self st)))).
Proof.
  intros Hscratch Hcredit.
  rewrite (show_sends_command_first st Hscratch Hcredit).
  destruct (_vcom (self st)); (split; [reflexivity|split; [reflexivity|]]);
    vm_compute; discriminate.
Qed.

Lemma command_byte_sent_as_is_witness :
  head (transmitted show panel_8x1) = Some 0xC0.
Proof.
  destruct (command_byte_sent_as_is panel_8x1 eq_refl ltac:(discriminate)) as (Hhead & _).
  exact Hhead.
Defined.

(** C2 as stated fails on the 8x1 panel: the byte sent first is [0xC0],
    its mirror would be [0x03]. *)
Lemma command_byte_not_reversed : ~ command_sent_reversed panel_8x1.
Proof. unfold command_sent_reversed. vm_compute. discriminate. Qed.

(** ** The toggle *)

(** [show] flips the toggle before its first write, whatever the bus does
    with that write or any later one. *)
Lemma show_flips_vcom (st : state) :
  length (_buf (self st)) = 1%nat ->
  _vcom (self (after show st)) = negb (_vcom (self st)).
Proof.
  intros Hscratch.
  destruct (scratch_byte _ Hscratch) as [a Ha].
  unfold after at 1. rewrite (show_unfold st a Ha).
  fold (after (with_spi_device (fun s => show_rest (with_self toggled s))) st).
  rewrite after_with_spi_device.
  change (_vcom (self (select false ?s))) with (vcom_view s).
  change (after (fun s => show_rest (with_self toggled s)) (select true st))
    with (after show_rest (with_self toggled (select true st))).
  rewrite (vcom_view_show_rest _). reflexivity.
Qed.


Lemma init_state (np : bool) (bus : SPIDevice) (w h : Z) (st0 : state) :
  __init__ np bus w h = Return st0 ->
  st0 = mkState (mkDisplay (mkSPI (wire bus) false (credit bus)) [0] O O w h w 0 true)
                [replicate (Z.to_nat (w / 8 * h)) 0] np.
Proof.
  unfold __init__. destruct (_ <? 0); [discriminate|]. now intros [= <-].
Qed.



(** ** [show] and the pixel buffer *)

(** C9: [show] never touches the pixel buffer. Whether it returns or
    raises, the heap of bytearrays is as before, so is every attribute of
    the display but the bus, the scratch byte and the toggle. *)
Theorem show_leaves_buffer (st : state) :
  heap (after show st) = heap st /\
  pixel_buffer (after show st) = pixel_buffer st /\
  numpy (after show st) = numpy st /\
  self (after show st)
  = set_spi_device (spi_device (self (after show st)))
      (set__buf (_buf (self (after show st)))
         (set__vcom (_vcom (self (after show st))) (self st))).
Proof.
  pose proof (show_view_show st) as Hview. unfold kept, show_view in Hview.
  injection Hview as Hheap Hnp Hbuffer Hbuf Hw Hh Hs Hrot _ _.
  split; [exact Hheap|]. split; [|split; [exact Hnp|]].
  - unfold pixel_buffer. now rewrite Hheap, Hbuffer.
  - destruct (self (after show st)), (self st). simpl in *. subst.
    reflexivity.
Qed.

(** ** [image]: the two checks *)

(** [image] as a case distinction on its two guards and on [numpy]. *)
Lemma image_with_unfold (rgb : Z -> Z -> color -> M unit) (img : Image) (st : state) :
  image_with rgb img st
  = if negb (String.eqb (mode img) "1") then (Raise (ValueError ImageMode), st)
    else if negb (fst (size img) =? fst (effective_size (self st)))
            || negb (snd (size img) =? snd (effective_size (self st)))
    then (Raise (ValueError (ImageDimensions (fst (effective_size (self st)))
                                             (snd (effective_size (self st))))), st)
    else if numpy st then image_numpy img st
    else image_loop rgb img (fst (effective_size (self st)))
                    (snd (effective_size (self st))) st.
Proof.
  unfold image_with, effective_size, bind, attr, raise.
  destruct ((rotation (self st) =? 1) || (rotation (self st) =? 3));
    destruct (negb (String.eqb (mode img) "1")); try reflexivity;
    destruct (size img) as [imwidth imheight]; simpl;
    destruct (negb (imwidth =? _) || negb (imheight =? _)); reflexivity.
Qed.

Lemma size_mismatch (img : Image) (d : SharpMemoryDisplay) :
  size img <> effective_size d ->
  negb (fst (size img) =? fst (effective_size d))
  || negb (snd (size img) =? snd (effective_size d)) = true.
Proof.
  intros Hne.
  destruct (size img) as [iw ih], (effective_size d) as [w h]. simpl.
  destruct (Z.eqb_spec iw w), (Z.eqb_spec ih h); try reflexivity.
  subst. now destruct Hne.
Qed.

(** C6 (as the code has it): an image whose size differs from the
    rotation-adjusted panel size is refused and the whole state, pixel
    buffer included, stays as it was. The refusal reports the size when the
    image is in mode ["1"]; for any other mode the mode check comes first
    and the refusal reports the mode. *)
Theorem image_refuses_wrong_size (img : Image) (st : state) :
  size img <> effective_size (self st) ->
  after (image img) st = st /\
  pixel_buffer (after (image img) st) = pixel_buffer st /\
  fst (image img st)
  = if String.eqb (mode img) "1"
    then Raise (ValueError (ImageDimensions (fst (effective_size (self st)))
                                            (snd (effective_size (self st)))))
    else Raise (ValueError ImageMode).
Proof.
  intros Hne. unfold after, image. rewrite image_with_unfold.
  rewrite (size_mismatch img (self st) Hne).
  destruct (String.eqb (mode img) "1"); simpl; auto.
Qed.

Lemma image_refuses_wrong_size_witness :
  fst (image dots_16x2 panel_8x1) = Raise (ValueError (ImageDimensions 8 1)) /\
  pixel_buffer (after (image dots_16x2) panel_8x1) = Some [0x80].
Proof.
  destruct (image_refuses_wrong_size dots_16x2 panel_8x1 ltac:(discriminate))
    as (_ & Hbuf & Hres).
  split; [exact Hres | exact Hbuf].
Defined.

(** C6 as stated fails for an RGB image of the wrong size: it is refused
    for its mode. *)
Lemma mismatch_reported_as_mode : ~ mismatch_reported_as_size rgb_4x4 panel_8x1.
Proof.
  intros Hclaim. destruct (Hclaim ltac:(discriminate)) as (w & h & Hres & _).
  vm_compute in Hres. discriminate.
Qed.

(** ** [image]: the branch for RGB images *)

Lemma mode_1_not_RGB (img : Image) :
  String.eqb (mode img) "1" = true -> String.eqb (mode img) "RGB" = false.
Proof. intros H. apply String.eqb_eq in H. now rewrite H. Qed.

(** C10: the ["RGB"] branch of the per-pixel loop is dead. Whatever the
    branch would do, [image] does the same; the mode check raises for every
    image whose mode is not ["1"], leaving the state as it was; and for an
    image in mode ["1"] the test [img.mode == "RGB"] in the loop body is
    false, so the body is the [elif]. *)
Theorem rgb_branch_unreachable
    (rgb : Z -> Z -> color -> M unit) (img : Image) (st : state) :
  image_with rgb img st = image img st /\
  (mode img <> "1" -> image_with rgb img st = (Raise (ValueError ImageMode), st)) /\
  (mode img = "1" ->
   forall x y, image_pixel rgb img (load img) x y
               = if truthy (load img x y) then pixel x y (Int 1) else ret tt).
Proof.
  split; [|split].
  - unfold image. rewrite !image_with_unfold.
    destruct (String.eqb (mode img) "1") eqn:Hmode; [|reflexivity].
    apply mode_1_not_RGB in Hmode. simpl.
    unfold image_loop, image_pixel. rewrite Hmode. reflexivity.
  - intros Hmode. rewrite image_with_unfold.
    destruct (String.eqb_spec (mode img) "1"); [contradiction|reflexivity].
  - intros Hmode x y. unfold image_pixel. rewrite Hmode. reflexivity.
Qed.

Lemma rgb_branch_unreachable_witness :
  image_with (fun _ _ _ => raise OSError) rgb_4x4 panel_8x1
  = (Raise (ValueError ImageMode), panel_8x1) /\
  image_pixel (fun _ _ _ => raise OSError) corner_dot (load corner_dot) 0 0
  = pixel 0 0 (Int 1).
Proof.
  split.
  - apply (rgb_branch_unreachable (fun _ _ _ => raise OSError) rgb_4x4 panel_8x1).
    discriminate.
  - apply (proj2 (proj2 (rgb_branch_unreachable (fun _ _ _ => raise OSError)
                           corner_dot panel_8x1)) eq_refl 0 0).
Defined.

(** ** Which bytearray is the pixel buffer, and how long it is *)

Lemma lengths_lookup (h h' : list (list Z)) (r : nat) :
  length <$> h' = length <$> h ->
  (fun b => Z.of_nat (length b)) <$> h' !! r = (fun b => Z.of_nat (length b)) <$> h !! r.
Proof.
  intros Hlen. assert (Hlook := f_equal (fun l => l !! r) Hlen). simpl in Hlook.
  rewrite !list_lookup_fmap in Hlook.
  destruct (h' !! r), (h !! r); simpl in *; congruence.
Qed.

Lemma alloc_view_buffer_len (st st' : state) :
  alloc_view st' = alloc_view st -> buffer_len st' = buffer_len st.
Proof.
  unfold alloc_view, buffer_len, pixel_buffer. intros [= Hbuffer _ _ _ _ _ _ Hheap].
  rewrite Hbuffer. now apply lengths_lookup.
Qed.

Lemma alloc_view_store (r : ref) (i v : Z) : respects (kept alloc_view) (store r i v).
Proof.
  intros st. unfold kept, after, store, bind, deref, lift.
  destruct (heap st !! r) as [b|] eqn:Hr; [|reflexivity].
  destruct (setitem b i v) as [b'|e] eqn:Hset; [|reflexivity].
  unfold alloc_view, with_heap. cbn [self heap numpy snd]. f_equal.
  rewrite list_fmap_insert, (length_setitem _ _ _ _ Hset).
  apply list_insert_id. now rewrite list_lookup_fmap, Hr.
Qed.

Lemma alloc_view__buf_setitem i v : respects (kept alloc_view) (_buf_setitem i v).
Proof.
  intros st. unfold kept, after, _buf_setitem, bind, attr, lift, assign.
  destruct (setitem (_buf (self st)) i v); reflexivity.
Qed.

Lemma alloc_view_spi_write data : respects (kept alloc_view) (spi_write data).
Proof.
  intros st. unfold kept, after, spi_write.
  destruct (credit (spi_device (self st))) as [[|n]|]; reflexivity.
Qed.

Lemma alloc_view_set__vcom v : respects (kept alloc_view) (assign (set__vcom v)).
Proof. intros st. reflexivity. Qed.

#[local] Hint Resolve alloc_view_store alloc_view__buf_setitem alloc_view_spi_write
  alloc_view_set__vcom : respects.

Lemma alloc_view_show : respects (kept alloc_view) show.
Proof.
  unfold show. apply respects_with_spi_device; [typeclasses eauto | reflexivity |].
  respects_block.
Qed.

Lemma alloc_view_set_pixel x y c : respects (kept alloc_view) (MHMSBFormat.set_pixel x y c).
Proof. unfold MHMSBFormat.set_pixel. respects_block. Qed.

Lemma alloc_view_pixel x y c : respects (kept alloc_view) (pixel x y c).
Proof.
  intros st. cbv beta iota zeta delta [pixel bind attr raise after kept].
  destruct (rotation (self st) =? 1), (rotation (self st) =? 2),
    (rotation (self st) =? 3); cbv zeta beta iota;
    match goal with |- context [if ?b then _ else _] => destruct b end;
    solve [reflexivity | apply alloc_view_set_pixel].
Qed.

Lemma alloc_view_clear : respects (kept alloc_view) clear.
Proof. unfold clear, MHMSBFormat.fill. respects_block. Qed.

Lemma alloc_view_image_loop rgb img w h :
  (forall x y c, respects (kept alloc_view) (rgb x y c)) ->
  respects (kept alloc_view) (image_loop rgb img w h).
Proof.
  intros Hrgb. unfold image_loop, image_pixel. pose proof alloc_view_pixel.
  respects_block; auto.
Qed.

Lemma length_packbits_row (bits : list bool) :
  length (packbits_row bits) = Nat.div (length bits + 7) 8.
Proof. unfold packbits_row. now rewrite length_fmap, length_seq. Qed.

(** The vectorized path builds [imheight * ceil(imwidth / 8)] bytes. *)
Lemma length_numpy_bytes (img : Image) :
  length (flatten (packbits (asarray img)))
  = (Z.to_nat (snd (size img)) * Nat.div (Z.to_nat (fst (size img)) + 7) 8)%nat.
Proof.
  unfold flatten, packbits, asarray. destruct (size img) as [iw ih]. simpl.
  rewrite (length_concat_const _ (Nat.div (Z.to_nat iw + 7) 8)).
  - rewrite !length_fmap. unfold range. now rewrite length_seqZ.
  - rewrite <- list_fmap_compose. apply Forall_fmap, Forall_forall. intros y _.
    simpl. rewrite length_packbits_row, length_fmap. unfold range.
    now rewrite length_seqZ.
Qed.

Lemma length_numpy_bytes_aligned (img : Image) (w h : Z) :
  size img = (w, h) -> 0 <= w -> 0 <= h -> w mod 8 = 0 ->
  Z.of_nat (length (flatten (packbits (asarray img)))) = w / 8 * h.
Proof.
  intros Hsize Hw Hh Hal. rewrite length_numpy_bytes, Hsize. cbn [fst snd].
  rewrite Nat2Z.inj_mul, Nat2Z.inj_div, Nat2Z.inj_add, !Z2Nat.id by lia.
  change (Z.of_nat 7) with 7. change (Z.of_nat 8) with 8.
  replace ((w + 7) / 8) with (w / 8); [lia|].
  pose proof (Z.div_mod w 8 ltac:(lia)) as Hdiv. rewrite Hal in Hdiv.
  apply (Z.div_unique_pos (w + 7) 8 (w / 8) 7); lia.
Qed.

Lemma image_numpy_run (img : Image) (st : state) :
  image_numpy img st
  = (Return tt,
     with_self (set_buffer (length (heap st)))
       (with_heap (fun h => h ++ [flatten (packbits (asarray img))]) st)).
Proof. reflexivity. Qed.



(** An operation that works in place leaves names, geometry and lengths
    alone. *)
Lemma in_place_alloc_view (op : operation) (st : state) :
  in_place op st = true -> alloc_view (after (run op) st) = alloc_view st.
Proof.
  destruct op as [x y c| | |img]; simpl; intros Hplace.
  - apply alloc_view_pixel.
  - apply alloc_view_clear.
  - apply alloc_view_show.
  - apply negb_true_iff in Hplace.
    unfold after, image. rewrite image_with_unfold, Hplace.
    repeat match goal with |- context [if ?b then (_, _) else _] => destruct b end;
      try reflexivity.
    apply alloc_view_image_loop. intros. apply alloc_view_pixel.
Qed.






(** ** [image]: where the two paths agree *)

Lemma pairs_all (P : Z -> Z -> bool) (n m : Z) :
  forallb (fun a => forallb (P a) (range m)) (range n) = true ->
  forall a b, 0 <= a < n -> 0 <= b < m -> P a b = true.
Proof.
  intros Hall a b Ha Hb.
  rewrite forallb_forall in Hall.
  assert (Hrow := Hall a ltac:(apply list_elem_of_In, elem_of_seqZ; lia)).
  rewrite forallb_forall in Hrow.
  apply Hrow, list_elem_of_In, elem_of_seqZ. lia.
Qed.

Lemma set_bit_is_byte (old off : Z) :
  is_byte old -> 0 <= off < 8 -> is_byte (set_bit old off).
Proof.
  intros Hold Hoff.
  assert (H : (0 <=? set_bit old off) && (set_bit old off <? 256) = true).
  { apply (pairs_all (fun old off => (0 <=? set_bit old off) && (set_bit old off <? 256))
                     256 8); [vm_compute; reflexivity | exact Hold | exact Hoff]. }
  apply andb_true_iff in H. destruct H as [H1 H2].
  apply Z.leb_le in H1. apply Z.ltb_lt in H2. split; assumption.
Qed.

Lemma testbit_set_bit (old off k : Z) :
  is_byte old -> 0 <= off < 8 -> 0 <= k < 8 ->
  Z.testbit (set_bit old off) k = Z.testbit old k || (off =? k).
Proof.
  intros Hold Hoff Hk.
  assert (H : forallb (fun k => Bool.eqb (Z.testbit (set_bit old off) k)
                                         (Z.testbit old k || (off =? k))) (range 8) = true).
  { apply (pairs_all (fun old off =>
             forallb (fun k => Bool.eqb (Z.testbit (set_bit old off) k)
                                        (Z.testbit old k || (off =? k))) (range 8))
             256 8); [vm_compute; reflexivity | exact Hold | exact Hoff]. }
  rewrite forallb_forall in H.
  apply Bool.eqb_prop, H, list_elem_of_In, elem_of_seqZ. lia.
Qed.

Lemma pack8_nth (bits : list bool) :
  pack8 bits
  = pack8 [nth 0 bits false; nth 1 bits false; nth 2 bits false; nth 3 bits false;
           nth 4 bits false; nth 5 bits false; nth 6 bits false; nth 7 bits false].
Proof. reflexivity. Qed.

Lemma pack8_bits (b0 b1 b2 b3 b4 b5 b6 b7 : bool) (k : Z) :
  0 <= k < 8 ->
  is_byte (pack8 [b0; b1; b2; b3; b4; b5; b6; b7]) /\
  Z.testbit (pack8 [b0; b1; b2; b3; b4; b5; b6; b7]) k
  = nth (Z.to_nat (7 - k)) [b0; b1; b2; b3; b4; b5; b6; b7] false.
Proof.
  intros Hk.
  assert (Hcase : k = 0 \/ k = 1 \/ k = 2 \/ k = 3 \/ k = 4 \/ k = 5 \/ k = 6 \/ k = 7) by lia.
  split.
  - destruct b0, b1, b2, b3, b4, b5, b6, b7; vm_compute; split; congruence.
  - destruct Hcase as [->|[->|[->|[->|[->|[->|[->| ->]]]]]]];
      destruct b0, b1, b2, b3, b4, b5, b6, b7; reflexivity.
Qed.

Lemma pack8_spec (bits : list bool) (k : Z) :
  0 <= k < 8 ->
  is_byte (pack8 bits) /\
  Z.testbit (pack8 bits) k = nth (Z.to_nat (7 - k)) bits false.
Proof.
  intros Hk. rewrite pack8_nth.
  destruct (pack8_bits (nth 0 bits false) (nth 1 bits false) (nth 2 bits false)
              (nth 3 bits false) (nth 4 bits false) (nth 5 bits false)
              (nth 6 bits false) (nth 7 bits false) k Hk) as [Hbyte Hbit].
  split; [exact Hbyte|]. rewrite Hbit.
  assert (Hcase : k = 0 \/ k = 1 \/ k = 2 \/ k = 3 \/ k = 4 \/ k = 5 \/ k = 6 \/ k = 7) by lia.
  destruct Hcase as [->|[->|[->|[->|[->|[->|[->| ->]]]]]]]; reflexivity.
Qed.

Lemma bit_of_mod (p : Z * Z) : bit_of p = (7 - p.1) mod 8.
Proof. unfold bit_of. change 0x07 with (Z.ones 3). now rewrite Z.land_ones by lia. Qed.

Lemma bit_of_range (p : Z * Z) : 0 <= bit_of p < 8.
Proof. rewrite bit_of_mod. apply Z.mod_pos_bound. lia. Qed.

Lemma byte_of_split (rb : Z) (p : Z * Z) :
  (p.2 * (8 * rb) + p.1) / 8 = p.2 * rb + p.1 / 8.
Proof.
  replace (p.2 * (8 * rb) + p.1) with (p.2 * rb * 8 + p.1) by ring.
  rewrite Z.div_add_l by lia. reflexivity.
Qed.

Lemma byte_of_lt (rb h : Z) (p : Z * Z) :
  0 <= p.1 < 8 * rb -> 0 <= p.2 < h ->
  (byte_of rb p < Z.to_nat (rb * h))%nat.
Proof.
  intros Hx Hy. unfold byte_of. rewrite byte_of_split.
  assert (0 <= p.1 / 8 < rb) by (split; [apply Z.div_pos; lia | apply Z.div_lt_upper_bound; lia]).
  assert (p.2 * rb + p.1 / 8 < rb * h) by nia.
  assert (0 <= p.2 * rb) by nia.
  lia.
Qed.

Lemma elem_of_scan (w h : Z) (p : Z * Z) :
  p ∈ scan w h <-> 0 <= p.1 < w /\ 0 <= p.2 < h.
Proof.
  unfold scan, range. rewrite list_elem_of_bind. split.
  - intros (x & Hp & Hx). apply list_elem_of_fmap in Hp as (y & -> & Hy).
    apply elem_of_seqZ in Hx, Hy. simpl. lia.
  - intros [Hx Hy]. exists p.1. split.
    + apply list_elem_of_fmap. exists p.2. split; [now destruct p|].
      apply elem_of_seqZ. lia.
    + apply elem_of_seqZ. lia.
Qed.

(** On a panel of [rb] bytes a row and [h] rows, the only pixel that lands
    on bit [k] of byte [j] is [pixel_at rb j k]. *)
Lemma hit_pixel_at (rb h : Z) (j : nat) (k : Z) (p : Z * Z) :
  0 <= k < 8 -> Z.of_nat j < rb * h ->
  0 <= p.1 < 8 * rb -> 0 <= p.2 < h ->
  hit rb j k p = true <-> p = pixel_at rb j k.
Proof.
  intros Hk Hj Hx Hy. unfold hit, pixel_at.
  rewrite andb_true_iff, bool_decide_eq_true, Z.eqb_eq, bit_of_mod.
  unfold byte_of. rewrite byte_of_split.
  assert (Hrb : 0 < rb) by lia.
  assert (Ha : 0 <= p.1 / 8 < rb)
    by (split; [apply Z.div_pos; lia | apply Z.div_lt_upper_bound; lia]).
  pose proof (Z.div_mod p.1 8 ltac:(lia)) as Hdx.
  pose proof (Z.mod_pos_bound p.1 8 ltac:(lia)) as Hrx.
  assert (Hbit : (7 - p.1) mod 8 = 7 - p.1 mod 8).
  { symmetry. apply (Z.mod_unique_pos _ _ (- (p.1 / 8))); lia. }
  rewrite Hbit.
  split.
  - intros [Hbyte Hoff].
    assert (Hj' : Z.of_nat j = p.2 * rb + p.1 / 8) by nia.
    assert (Hq : Z.of_nat j / rb = p.2)
      by (symmetry; apply (Z.div_unique_pos _ _ _ (p.1 / 8)); lia).
    assert (Hr : Z.of_nat j mod rb = p.1 / 8)
      by (symmetry; apply (Z.mod_unique_pos _ _ p.2); lia).
    rewrite Hq, Hr. destruct p as [x y]. simpl in *. f_equal. lia.
  - intros ->. simpl in *.
    pose proof (Z.div_mod (Z.of_nat j) rb ltac:(lia)) as Hdj.
    pose proof (Z.mod_pos_bound (Z.of_nat j) rb ltac:(lia)) as Hrj.
    replace ((8 * (Z.of_nat j mod rb) + (7 - k)) / 8) with (Z.of_nat j mod rb)
      by (apply (Z.div_unique_pos _ _ _ (7 - k)); lia).
    replace ((8 * (Z.of_nat j mod rb) + (7 - k)) mod 8) with (7 - k)
      by (apply (Z.mod_unique_pos _ _ (Z.of_nat j mod rb)); lia).
    split; [|lia]. nia.
Qed.

Lemma pixel_at_in_scan (rb h : Z) (j : nat) (k : Z) :
  0 <= rb -> 0 <= k < 8 -> Z.of_nat j < rb * h ->
  pixel_at rb j k ∈ scan (8 * rb) h.
Proof.
  intros Hrb0 Hk Hj. apply elem_of_scan. unfold pixel_at. simpl.
  assert (Hrb : 0 < rb).
  { destruct (Z.eq_dec rb 0) as [->|]; [|lia]. rewrite Z.mul_0_l in Hj. lia. }
  pose proof (Z.mod_pos_bound (Z.of_nat j) rb Hrb).
  assert (0 <= Z.of_nat j / rb) by (apply Z.div_pos; lia).
  assert (Z.of_nat j / rb < h) by (apply Z.div_lt_upper_bound; lia).
  lia.
Qed.

(** After the whole scan, bit [k] of byte [j] has been hit by a lit pixel
    exactly when the pixel it shows is lit. *)
Lemma existsb_scan (img : Image) (rb h : Z) (j : nat) (k : Z) :
  0 <= rb -> 0 <= k < 8 -> Z.of_nat j < rb * h ->
  existsb (fun p => lit img p && hit rb j k p) (scan (8 * rb) h)
  = lit img (pixel_at rb j k).
Proof.
  intros Hrb Hk Hj.
  destruct (lit img (pixel_at rb j k)) eqn:Hlit.
  - apply existsb_exists. exists (pixel_at rb j k). split.
    + apply list_elem_of_In, (pixel_at_in_scan rb h); assumption.
    + rewrite Hlit. simpl. apply (hit_pixel_at rb h); try assumption; try reflexivity;
        apply (elem_of_scan (8 * rb) h), pixel_at_in_scan; assumption.
  - apply not_true_is_false. intros Hex.
    apply existsb_exists in Hex as (p & Hin & Hp).
    apply list_elem_of_In, elem_of_scan in Hin as [Hx Hy].
    apply andb_true_iff in Hp as [Hlp Hhit].
    apply (hit_pixel_at rb h) in Hhit; try assumption.
    subst p. congruence.
Qed.

(** What one turn of the loop body does to the bits of the buffer. *)
Lemma paint_spec (img : Image) (rb : Z) (b : bytearray) (p : Z * Z) :
  Forall is_byte b -> (byte_of rb p < length b)%nat ->
  length (paint img rb b p) = length b /\
  Forall is_byte (paint img rb b p) /\
  forall j k, 0 <= k < 8 ->
    Z.testbit (paint img rb b p !!! j) k
    = Z.testbit (b !!! j) k || (lit img p && hit rb j k p).
Proof.
  intros Hbytes Hlt. unfold paint.
  destruct (lit img p); simpl.
  2: { split; [reflexivity|]. split; [assumption|]. intros. now rewrite orb_false_r. }
  assert (Hold : is_byte (b !!! byte_of rb p)).
  { apply (Forall_lookup_1 _ _ (byte_of rb p) _ Hbytes).
    now apply list_lookup_lookup_total_lt. }
  pose proof (bit_of_range p) as Hoff.
  split; [apply length_insert|]. split.
  - apply Forall_insert; [assumption|]. now apply set_bit_is_byte.
  - intros j k Hk. unfold hit.
    destruct (decide (byte_of rb p = j)) as [<-|Hne].
    + rewrite list_lookup_total_insert_eq by assumption.
      rewrite bool_decide_eq_true_2 by reflexivity.
      now apply testbit_set_bit.
    + rewrite list_lookup_total_insert_ne by assumption.
      rewrite bool_decide_eq_false_2 by assumption. simpl. now rewrite orb_false_r.
Qed.

Lemma painted_spec (img : Image) (rb : Z) (ps : list (Z * Z)) :
  forall b : bytearray,
  Forall is_byte b -> Forall (fun p => byte_of rb p < length b)%nat ps ->
  length (foldl (paint img rb) b ps) = length b /\
  Forall is_byte (foldl (paint img rb) b ps) /\
  forall j k, 0 <= k < 8 ->
    Z.testbit (foldl (paint img rb) b ps !!! j) k
    = Z.testbit (b !!! j) k || existsb (fun p => lit img p && hit rb j k p) ps.
Proof.
  induction ps as [|p ps IH]; intros b Hbytes Hin; simpl.
  - split; [reflexivity|]. split; [assumption|]. intros. now rewrite orb_false_r.
  - apply Forall_cons in Hin as [Hp Hps].
    destruct (paint_spec img rb b p Hbytes Hp) as (Hlen & Hbytes' & Hbits).
    destruct (IH (paint img rb b p) Hbytes') as (Hlen2 & Hbytes2 & Hbits2).
    { rewrite Hlen. exact Hps. }
    split; [congruence|]. split; [assumption|].
    intros j k Hk. rewrite Hbits2, Hbits by assumption. now rewrite orb_assoc.
Qed.

(** Row [y] of [numpy.asarray(img)]. *)
Lemma asarray_lookup (img : Image) (w h : Z) (y : nat) :
  size img = (w, h) -> Z.of_nat y < h ->
  asarray img !! y
  = Some ((fun x => truthy (load img x (Z.of_nat y))) <$> range w).
Proof.
  intros Hsize Hy. unfold asarray, range. rewrite Hsize.
  rewrite list_lookup_fmap, lookup_seqZ_lt by lia. reflexivity.
Qed.

(** The bits of the bytes the vectorized path builds. *)
Lemma numpy_bytes_bits (img : Image) (rb h : Z) (j : nat) (k : Z) :
  size img = (8 * rb, h) -> 0 <= rb -> 0 <= k < 8 -> Z.of_nat j < rb * h ->
  is_byte (flatten (packbits (asarray img)) !!! j) /\
  Z.testbit (flatten (packbits (asarray img)) !!! j) k = lit img (pixel_at rb j k).
Proof.
  intros Hsize Hrb0 Hk Hj.
  assert (Hrb : 0 < rb).
  { destruct (Z.eq_dec rb 0) as [->|]; [|lia]. rewrite Z.mul_0_l in Hj. lia. }
  set (c := Z.to_nat rb).
  assert (Hc : Z.of_nat c = rb) by (subst c; lia).
  set (y := (j / c)%nat). set (q := (j mod c)%nat).
  assert (Hjyq : j = (y * c + q)%nat) by (subst y q; pose proof (Nat.div_mod_eq j c); lia).
  assert (Hq : (q < c)%nat) by (subst q; apply Nat.mod_upper_bound; lia).
  assert (Hy : Z.of_nat y < h) by nia.
  assert (Hyz : Z.of_nat j / rb = Z.of_nat y) by (subst y; rewrite <- Hc, Nat2Z.inj_div; reflexivity).
  assert (Hqz : Z.of_nat j mod rb = Z.of_nat q) by (subst q; rewrite <- Hc, Nat2Z.inj_mod; reflexivity).
  set (bits := (fun x => truthy (load img x (Z.of_nat y))) <$> range (8 * rb)).
  assert (Hlook : flatten (packbits (asarray img)) !! j
                  = Some (pack8 (take 8 (drop (8 * q) bits)))).
  { unfold flatten, packbits. rewrite Hjyq.
    rewrite (lookup_concat_const _ c) by
      (try assumption; apply Forall_fmap, Forall_forall; intros row Hrow; simpl;
       rewrite length_packbits_row;
       unfold asarray in Hrow; rewrite Hsize in Hrow;
       apply list_elem_of_fmap in Hrow as (y' & -> & _);
       rewrite length_fmap; unfold range; rewrite length_seqZ;
       replace (Z.to_nat (8 * rb)) with (8 * c)%nat by lia;
       replace (8 * c + 7)%nat with (7 + c * 8)%nat by lia;
       rewrite Nat.div_add by lia; reflexivity).
    rewrite list_lookup_fmap, (asarray_lookup img (8 * rb) h y Hsize Hy). simpl.
    fold bits. unfold packbits_row.
    rewrite list_lookup_fmap, lookup_seq_lt; [reflexivity|].
    subst bits. rewrite length_fmap. unfold range. rewrite length_seqZ.
    replace (Z.to_nat (8 * rb)) with (8 * c)%nat by lia.
    replace (8 * c + 7)%nat with (7 + c * 8)%nat by lia.
    rewrite Nat.div_add by lia. simpl. exact Hq. }
  rewrite (list_lookup_total_correct _ _ _ Hlook).
  destruct (pack8_spec (take 8 (drop (8 * q) bits)) k Hk) as [Hbyte Hbit].
  split; [exact Hbyte|]. rewrite Hbit.
  rewrite nth_lookup, lookup_take_lt, lookup_drop by lia.
  subst bits. unfold range.
  rewrite list_lookup_fmap, lookup_seqZ_lt by lia. simpl.
  unfold lit, pixel_at. simpl. rewrite Hyz, Hqz. do 2 f_equal. lia.
Qed.

(** Painting the lit pixels one by one onto a cleared buffer builds the
    bytes that [packbits] builds. *)
Lemma painted_is_packed (img : Image) (rb h : Z) :
  size img = (8 * rb, h) -> 0 <= rb -> 0 <= h ->
  foldl (paint img rb) (replicate (Z.to_nat (rb * h)) 0) (scan (8 * rb) h)
  = flatten (packbits (asarray img)).
Proof.
  intros Hsize Hrb Hh.
  set (zeros := replicate (Z.to_nat (rb * h)) 0).
  assert (Hzeros : Forall is_byte zeros).
  { apply Forall_replicate. split; lia. }
  assert (Hscan : Forall (fun p => byte_of rb p < length zeros)%nat (scan (8 * rb) h)).
  { apply Forall_forall. intros p Hp. apply elem_of_scan in Hp as [Hx Hy].
    subst zeros. rewrite length_replicate. now apply byte_of_lt. }
  destruct (painted_spec img rb (scan (8 * rb) h) zeros Hzeros Hscan)
    as (Hlen & Hbytes & Hbits).
  assert (Hlen' : length (foldl (paint img rb) zeros (scan (8 * rb) h)) = Z.to_nat (rb * h)).
  { rewrite Hlen. subst zeros. apply length_replicate. }
  assert (Hlen2 : length (flatten (packbits (asarray img))) = Z.to_nat (rb * h)).
  { apply Nat2Z.inj.
    rewrite (length_numpy_bytes_aligned img (8 * rb) h Hsize) by
      (try lia; rewrite Z.mul_comm; apply Z.mod_mul; lia).
    replace (8 * rb / 8) with rb by (rewrite Z.mul_comm, Z.div_mul; lia). nia. }
  apply (list_eq_same_length _ _ (Z.to_nat (rb * h))); try assumption.
  intros j a b Hj Ha Hb.
  apply list_lookup_total_correct in Ha, Hb. subst a b.
  assert (HjZ : Z.of_nat j < rb * h) by lia.
  apply byte_eq.
  - apply (Forall_lookup_1 _ _ j _ Hbytes), list_lookup_lookup_total_lt. lia.
  - apply (numpy_bytes_bits img rb h j 0 Hsize Hrb); [lia | exact HjZ].
  - intros k Hk.
    rewrite Hbits by exact Hk.
    rewrite (existsb_scan img rb h j k Hrb Hk HjZ).
    subst zeros. rewrite lookup_total_replicate_2 by lia.
    rewrite Z.bits_0. simpl.
    symmetry. apply (numpy_bytes_bits img rb h j k Hsize Hrb Hk HjZ).
Qed.

(** ** Running the per-pixel path *)

Lemma py_index_in (n i : Z) : 0 <= i < n -> py_index n i = Some (Z.to_nat i).
Proof.
  intros Hi. unfold py_index.
  destruct (Z.ltb_spec i 0); [lia|].
  destruct (Z.leb_spec 0 i), (Z.ltb_spec i n); try lia. reflexivity.
Qed.

Lemma getitem_in (b : bytearray) (i : Z) :
  0 <= i < Z.of_nat (length b) -> getitem b i = Return (b !!! Z.to_nat i).
Proof.
  intros Hi. unfold getitem. rewrite py_index_in by exact Hi.
  rewrite list_lookup_lookup_total_lt by lia. reflexivity.
Qed.

Lemma setitem_in (b : bytearray) (i v : Z) :
  0 <= i < Z.of_nat (length b) -> is_byte v ->
  setitem b i v = Return (<[Z.to_nat i := v]> b).
Proof.
  intros Hi [Hv0 Hv1]. unfold setitem. rewrite py_index_in by exact Hi.
  destruct (Z.leb_spec 0 v), (Z.ltb_spec v 256); try lia. reflexivity.
Qed.

(** A store into the bytearray behind [r]. *)
Lemma store_run (r : ref) (i v : Z) (b : bytearray) d hp np :
  hp !! r = Some b -> 0 <= i < Z.of_nat (length b) -> is_byte v ->
  store r i v (mkState d hp np)
  = (Return tt, mkState d (<[r := <[Z.to_nat i := v]> b]> hp) np).
Proof.
  intros Hr Hi Hv. unfold store, bind, deref, lift. cbn [heap].
  rewrite Hr, (setitem_in b i v Hi Hv). reflexivity.
Qed.

Section loops.

(** The display and the [numpy] flag stay fixed while a loop works on the
    bytearray [buf] names. *)
Context (d : SharpMemoryDisplay) (np : bool).

(** A loop whose every turn stores [step b x] for the [b] it found. *)
Lemma for_each_on_buf {A} (xs : list A) (body : A -> M unit)
    (step : bytearray -> A -> bytearray) (Good : bytearray -> Prop) (P : A -> Prop) :
  (forall x b hp, P x -> Good b -> hp !! buf d = Some b ->
     body x (mkState d hp np) = (Return tt, mkState d (<[buf d := step b x]> hp) np)
     /\ Good (step b x)) ->
  Forall P xs ->
  forall b hp, Good b -> hp !! buf d = Some b ->
  for_each xs body (mkState d hp np)
  = (Return tt, mkState d (<[buf d := foldl step b xs]> hp) np)
  /\ Good (foldl step b xs).
Proof.
  intros Hbody HP. induction HP as [|x xs Hx _ IH]; intros b hp Hgood Hlook.
  - simpl. split; [|exact Hgood]. unfold for_each. simpl. unfold ret.
    now rewrite list_insert_id.
  - destruct (Hbody x b hp Hx Hgood Hlook) as [Hrun Hgood'].
    unfold for_each in *. simpl. unfold bind at 1. rewrite Hrun.
    destruct (IH (step b x) (<[buf d := step b x]> hp) Hgood') as [Hrest Hgood2].
    { apply list_lookup_insert_eq. now apply lookup_lt_Some in Hlook. }
    rewrite Hrest, list_insert_insert_eq. split; [reflexivity | exact Hgood2].
Qed.

End loops.

(** Zeroing a buffer index by index. *)
Lemma cleared (n : nat) (b : bytearray) :
  length b = n ->
  foldl (fun b i => <[Z.to_nat i := 0]> b) b (range (Z.of_nat n)) = replicate n 0.
Proof.
  intros Hlen.
  assert (Hgen : forall k, (k <= n)%nat ->
            foldl (fun b i => <[Z.to_nat i := 0]> b) b (seqZ 0 (Z.of_nat k))
            = replicate k 0 ++ drop k b).
  { induction k as [|k IH]; intros Hk.
    - reflexivity.
    - replace (Z.of_nat (S k)) with (Z.of_nat k + 1) by lia.
      rewrite seqZ_app by lia. rewrite foldl_app, IH by lia.
      change (seqZ (0 + Z.of_nat k) 1) with [0 + Z.of_nat k]. simpl.
      rewrite insert_app_r_alt by (rewrite length_replicate; lia).
      rewrite length_replicate.
      replace (Z.to_nat (0 + Z.of_nat k) - k)%nat with O by lia.
      destruct (lookup_lt_is_Some_2 b k ltac:(lia)) as [v Hv].
      rewrite (drop_S _ _ _ Hv). simpl.
      rewrite cons_middle, app_assoc, <- replicate_S_end. reflexivity. }
  unfold range. rewrite Hgen by lia. rewrite drop_ge by lia. apply app_nil_r.
Qed.

Section per_pixel.

Context (rgb : Z -> Z -> color -> M unit) (img : Image).
Context (d : SharpMemoryDisplay) (np : bool) (rb h : Z).

(** An unrotated panel of [rb] bytes a row and [h] rows, and an image in
    mode ["1"]. *)
Hypothesis Hrotation : rotation d = 0.
Hypothesis Hwidth : width d = 8 * rb.
Hypothesis Hstride : stride d = 8 * rb.
Hypothesis Hheight : height d = h.
Hypothesis Hmode : mode img = "1".

Lemma set_pixel_run (x y : Z) (b : bytearray) (hp : list bytearray) :
  0 <= x < 8 * rb -> 0 <= y < h ->
  workable rb h b -> hp !! buf d = Some b ->
  MHMSBFormat.set_pixel x y (Int 1) (mkState d hp np)
  = (Return tt,
     mkState d (<[buf d := <[byte_of rb (x, y)
                              := set_bit (b !!! byte_of rb (x, y)) (bit_of (x, y))]> b]> hp)
             np).
Proof.
  intros Hx Hy [Hbytes Hlen] Hlook.
  pose proof (byte_of_lt rb h (x, y) Hx Hy) as Hlt.
  assert (Hidx : 0 <= (y * (8 * rb) + x) / 8 < Z.of_nat (length b)).
  { split; [apply Z.div_pos; nia|]. unfold byte_of in Hlt. simpl in Hlt.
    assert (0 <= (y * (8 * rb) + x) / 8) by (apply Z.div_pos; nia). lia. }
  unfold MHMSBFormat.set_pixel, bind at 1, attr at 1. cbn [self]. rewrite Hstride.
  unfold bind at 1, attr at 1. cbn [self].
  unfold bind at 1, deref at 1. cbn [heap]. rewrite Hlook.
  unfold bind at 1, lift at 1. rewrite (getitem_in b _ Hidx).
  rewrite (store_run _ _ _ b) ; [reflexivity | exact Hlook | exact Hidx |].
  apply set_bit_is_byte; [|apply (bit_of_range (x, y))].
  apply (Forall_lookup_1 _ _ (Z.to_nat ((y * (8 * rb) + x) / 8)) _ Hbytes),
    list_lookup_lookup_total_lt. lia.
Qed.

Lemma pixel_run (x y : Z) (b : bytearray) (hp : list bytearray) :
  0 <= x < 8 * rb -> 0 <= y < h ->
  workable rb h b -> hp !! buf d = Some b ->
  pixel x y (Int 1) (mkState d hp np)
  = (Return tt,
     mkState d (<[buf d := <[byte_of rb (x, y)
                              := set_bit (b !!! byte_of rb (x, y)) (bit_of (x, y))]> b]> hp)
             np).
Proof.
  intros Hx Hy Hwork Hlook.
  unfold pixel, bind, attr. cbn [self]. rewrite Hrotation, Hwidth, Hheight.
  change (0 =? 1) with false. change (0 =? 2) with false. change (0 =? 3) with false.
  cbv iota beta.
  destruct (Z.ltb_spec x 0), (Z.leb_spec (8 * rb) x), (Z.ltb_spec y 0), (Z.leb_spec h y);
    try lia.
  cbn [orb]. now apply set_pixel_run.
Qed.

Lemma workable_paint (b : bytearray) (p : Z * Z) :
  0 <= p.1 < 8 * rb -> 0 <= p.2 < h -> workable rb h b -> workable rb h (paint img rb b p).
Proof.
  intros Hx Hy [Hbytes Hlen].
  destruct (paint_spec img rb b p Hbytes) as (Hlen' & Hbytes' & _).
  { rewrite Hlen. now apply byte_of_lt. }
  split; [assumption | congruence].
Qed.

(** One turn of the inner loop. *)
Lemma image_pixel_run (x y : Z) (b : bytearray) (hp : list bytearray) :
  0 <= x < 8 * rb -> 0 <= y < h ->
  workable rb h b -> hp !! buf d = Some b ->
  image_pixel rgb img (load img) x y (mkState d hp np)
  = (Return tt, mkState d (<[buf d := paint img rb b (x, y)]> hp) np).
Proof.
  intros Hx Hy Hwork Hlook. unfold image_pixel, paint, lit. rewrite Hmode.
  change (String.eqb "1" "RGB") with false. cbv iota. cbn [fst snd].
  destruct (truthy (load img x y)).
  - now apply pixel_run.
  - unfold ret. now rewrite list_insert_id.
Qed.

Lemma foldl_scan (xs ys : list Z) (b : bytearray) :
  foldl (fun b x => foldl (fun b y => paint img rb b (x, y)) b ys) b xs
  = foldl (paint img rb) b (x ← xs; (fun y => (x, y)) <$> ys).
Proof.
  revert b. induction xs as [|x xs IH]; intros b; [reflexivity|].
  cbn [foldl mbind list_bind]. rewrite foldl_app, <- IH. f_equal.
  now rewrite foldl_fmap.
Qed.

(** The per-pixel path on a buffer of the right length: it returns, and
    the buffer holds the lit pixels painted onto zeros. *)
Lemma image_loop_run (b0 : bytearray) (hp : list bytearray) :
  0 <= rb -> 0 <= h ->
  length b0 = Z.to_nat (rb * h) -> hp !! buf d = Some b0 ->
  image_loop rgb img (8 * rb) h (mkState d hp np)
  = (Return tt,
     mkState d (<[buf d := foldl (paint img rb) (replicate (Z.to_nat (rb * h)) 0)
                                 (scan (8 * rb) h)]> hp) np).
Proof.
  intros Hrb Hh Hlen Hlook.
  unfold image_loop. unfold bind at 1. unfold bind at 1, attr at 1. cbn [self].
  unfold bind at 1, deref at 1. cbn [heap]. rewrite Hlook.
  (* Clear buffer *)
  destruct (for_each_on_buf d np (range (Z.of_nat (length b0)))
              (fun i => r <- attr buf ;; store r i 0)
              (fun b i => <[Z.to_nat i := 0]> b)
              (fun b => length b = length b0)
              (fun i => 0 <= i < Z.of_nat (length b0))) with (b := b0) (hp := hp)
    as [Hclear _]; try assumption; try reflexivity.
  { intros i b hp' Hi Hb Hlook'. split; [|now rewrite length_insert].
    unfold bind, attr. cbn [self].
    apply (store_run _ _ _ b); [exact Hlook' | lia | split; lia]. }
  { apply Forall_forall. intros i Hi. apply elem_of_seqZ in Hi. lia. }
  rewrite Hclear, (cleared (length b0) b0 eq_refl), Hlen. clear Hclear.
  set (zeros := replicate (Z.to_nat (rb * h)) 0).
  set (hp1 := <[buf d := zeros]> hp).
  assert (Hlook1 : hp1 !! buf d = Some zeros).
  { apply list_lookup_insert_eq. now apply lookup_lt_Some in Hlook. }
  assert (Hzeros : workable rb h zeros).
  { split; [apply Forall_replicate; split; lia | apply length_replicate]. }
  (* Iterate through the pixels *)
  destruct (for_each_on_buf d np (range (8 * rb))
              (fun x => for_each (range h) (fun y => image_pixel rgb img (load img) x y))
              (fun b x => foldl (fun b y => paint img rb b (x, y)) b (range h))
              (workable rb h)
              (fun x => 0 <= x < 8 * rb)) with (b := zeros) (hp := hp1)
    as [Hpaint _]; try assumption.
  { intros x b hp' Hx Hb Hlook'.
    apply (for_each_on_buf d np (range h)
             (fun y => image_pixel rgb img (load img) x y)
             (fun b y => paint img rb b (x, y))
             (workable rb h) (fun y => 0 <= y < h)); try assumption.
    - intros y b' hp'' Hy Hb' Hlook''. split.
      + now apply image_pixel_run.
      + now apply workable_paint.
    - apply Forall_forall. intros y Hy. apply elem_of_seqZ in Hy. lia. }
  { apply Forall_forall. intros x Hx. apply elem_of_seqZ in Hx. lia. }
  rewrite Hpaint, foldl_scan. subst hp1.
  rewrite list_insert_insert_eq. reflexivity.
Qed.

End per_pixel.

(** On an unrotated panel whose width is a multiple of 8, with [buf] and
    [buffer] still naming one bytearray of [(width // 8) * height] bytes, the
    two paths of [image] agree: both return, and both leave the packed bits
    of the image in the pixel buffer. *)
Theorem image_paths_agree_unrotated (img : Image) (st : state) (bytes : bytearray) :
  rotation (self st) = 0 ->
  stride (self st) = width (self st) ->
  0 <= width (self st) -> 0 <= height (self st) ->
  width (self st) mod 8 = 0 ->
  buf (self st) = buffer (self st) ->
  pixel_buffer st = Some bytes ->
  Z.of_nat (length bytes) = width (self st) / 8 * height (self st) ->
  mode img = "1" ->
  size img = (width (self st), height (self st)) ->
  fst (image img (with_numpy true st)) = Return tt /\
  fst (image img (with_numpy false st)) = Return tt /\
  pixel_buffer (after (image img) (with_numpy false st))
  = Some (flatten (packbits (asarray img))) /\
  paths_agree img st.
Proof.
  intros Hrot Hstride Hw Hh Hal Halias Hbuf Hlen Hmode Hsize.
  destruct st as [d hp np]. cbn [self] in *. unfold pixel_buffer in Hbuf. cbn [self heap] in Hbuf.
  set (rb := width d / 8) in *.
  assert (Hwidth : width d = 8 * rb).
  { pose proof (Z.div_mod (width d) 8 ltac:(lia)) as Hdiv. subst rb. lia. }
  assert (Hrb : 0 <= rb) by lia.
  assert (Heff : effective_size d = (8 * rb, height d)).
  { unfold effective_size. rewrite Hrot, Hwidth. reflexivity. }
  assert (Hsize' : size img = (8 * rb, height d)) by (rewrite Hsize, Hwidth; reflexivity).
  assert (Hchecks : forall flag,
            image img (mkState d hp flag)
            = if flag then image_numpy img (mkState d hp flag)
              else image_loop pixel img (8 * rb) (height d) (mkState d hp flag)).
  { intros flag. unfold image. rewrite image_with_unfold. cbn [self numpy].
    rewrite Hmode, Heff, Hsize'. cbn [fst snd]. rewrite !Z.eqb_refl. reflexivity. }
  assert (Hfast : image img (with_numpy true (mkState d hp np))
                  = (Return tt,
                     mkState (set_buffer (length hp) d)
                             (hp ++ [flatten (packbits (asarray img))]) true)).
  { unfold with_numpy. cbn [self heap]. rewrite (Hchecks true). reflexivity. }
  assert (Hslow : image img (with_numpy false (mkState d hp np))
                  = (Return tt,
                     mkState d (<[buf d := flatten (packbits (asarray img))]> hp) false)).
  { unfold with_numpy. cbn [self heap]. rewrite (Hchecks false).
    rewrite (image_loop_run pixel img d false rb (height d) Hrot Hwidth
               ltac:(congruence) eq_refl Hmode bytes hp Hrb Hh ltac:(lia)
               ltac:(rewrite Halias; exact Hbuf)).
    now rewrite (painted_is_packed img rb (height d) Hsize' Hrb Hh). }
  assert (Hafter_slow : pixel_buffer (after (image img) (with_numpy false (mkState d hp np)))
                        = Some (flatten (packbits (asarray img)))).
  { unfold after. rewrite Hslow. unfold pixel_buffer. cbn [snd self heap].
    rewrite <- Halias. apply list_lookup_insert_eq.
    rewrite Halias. now apply lookup_lt_Some in Hbuf. }
  split; [now rewrite Hfast|]. split; [now rewrite Hslow|]. split; [exact Hafter_slow|].
  unfold paths_agree. rewrite Hafter_slow.
  unfold after. rewrite Hfast. unfold pixel_buffer, set_buffer. cbn [snd self heap buffer].
  now apply list_lookup_middle.
Qed.

Example image_paths_agree_16x2 :
  paths_agree dots_16x2 (constructed false idle_bus 16 2) /\
  pixel_buffer (after (image dots_16x2) (constructed false idle_bus 16 2))
  = Some [0x20; 0x00; 0x00; 0x10].
Proof.
  destruct (image_paths_agree_unrotated dots_16x2 (constructed false idle_bus 16 2)
              [0; 0; 0; 0] eq_refl eq_refl ltac:(simpl; lia) ltac:(simpl; lia)
              eq_refl eq_refl eq_refl eq_refl eq_refl eq_refl) as (_ & _ & Hbuf & Hagree).
  split; [exact Hagree|]. etransitivity; [exact Hbuf | reflexivity].
Qed.

(** ** [image]: the two paths *)

(** C7 (what the code does): on a panel turned by 180 degrees the two paths
    of [image] leave different pixel buffers for the same image. The
    per-pixel path turns the image with the panel, the vectorized path packs
    it as it comes. *)
Theorem image_paths_differ_when_rotated :
  pixel_buffer (after (image corner_dot) (with_numpy true panel_16x2_rot2))
  = Some [0x80; 0; 0; 0] /\
  pixel_buffer (after (image corner_dot) (with_numpy false panel_16x2_rot2))
  = Some [0; 0; 0; 0x01] /\
  ~ paths_agree corner_dot panel_16x2_rot2.
Proof.
  split; [vm_compute; reflexivity|]. split; [vm_compute; reflexivity|].
  unfold paths_agree. vm_compute. discriminate.
Qed.

(** * Further properties *)

(** ** reverse_bit on arbitrary integers *)

Lemma reverse_bit_mod (num : Z) : reverse_bit num = reverse_bit (num mod 256).
Proof.
  apply byte_eq; try apply reverse_bit_range.
  intros k Hk. rewrite !reverse_bit_bits by lia.
  change 256 with (2 ^ 8). now rewrite Z.mod_pow2_bits_low by lia.
Qed.

(** X1: whatever integer it is given, negative or beyond a byte,
    [reverse_bit] returns a byte, and bit [i] of that byte is bit [7 - i] of
    the argument. *)
Theorem reverse_bit_mirrors_any_integer (num i : Z) :
  0 <= i <= 7 ->
  0 <= reverse_bit num < 256 /\
  Z.testbit (reverse_bit num) i = Z.testbit num (7 - i).
Proof.
  intros Hi. split; [apply reverse_bit_range | now apply reverse_bit_bits].
Qed.

Lemma reverse_bit_mirrors_any_integer_witness :
  reverse_bit (-1) = 255 /\ reverse_bit 0x1F0 = 0x0F /\
  Z.testbit (reverse_bit 0x1F0) 3 = Z.testbit 0x1F0 4.
Proof.
  split; [reflexivity|]. split; [reflexivity|].
  apply (reverse_bit_mirrors_any_integer 0x1F0 3). lia.
Defined.

(** X2: [reverse_bit] looks at the low eight bits only, so the address byte
    [show] computes for a line repeats every 256 lines. *)
Theorem reverse_bit_period_256 (num : Z) :
  reverse_bit num = reverse_bit (num mod 256) /\
  reverse_bit (num + 256) = reverse_bit num.
Proof.
  split; [apply reverse_bit_mod|].
  rewrite (reverse_bit_mod (num + 256)), (reverse_bit_mod num). f_equal.
  replace (num + 256) with (num + 1 * 256) by lia. apply Z.mod_add. lia.
Qed.

(** X3: within a frame of at most 256 rows no two rows get the same
    address byte. *)
Theorem line_addresses_distinct (r1 r2 : Z) :
  0 <= r1 < 256 -> 0 <= r2 < 256 -> r1 <> r2 ->
  reverse_bit (r1 + 1) <> reverse_bit (r2 + 1).
Proof.
  intros H1 H2 Hne Heq. apply Hne.
  assert (Hmod : (r1 + 1) mod 256 = (r2 + 1) mod 256).
  { apply byte_eq; try (apply Z.mod_pos_bound; lia).
    intros k Hk.
    change 256 with (2 ^ 8). rewrite !Z.mod_pow2_bits_low by lia.
    replace k with (7 - (7 - k)) by lia.
    rewrite <- !reverse_bit_bits by lia. now rewrite Heq. }
  destruct (Z.eq_dec r1 255) as [->|], (Z.eq_dec r2 255) as [->|]; try reflexivity.
  - change ((255 + 1) mod 256) with 0 in Hmod. rewrite Z.mod_small in Hmod by lia. lia.
  - change ((255 + 1) mod 256) with 0 in Hmod. rewrite Z.mod_small in Hmod by lia. lia.
  - rewrite !Z.mod_small in Hmod by lia. lia.
Qed.

Lemma line_addresses_distinct_witness :
  reverse_bit (0 + 1) <> reverse_bit (255 + 1).
Proof. apply (line_addresses_distinct 0 255); lia. Defined.

(** ** Frames in a row *)

(** What [show] sends on a bus that never fails, for any number of rows:
    the closing byte is the zero the loop left, or the command byte when
    the loop did not run. *)
Lemma show_transmits (st : state) (bytes : bytearray) :
  length (_buf (self st)) = 1%nat ->
  credit (spi_device (self st)) = None ->
  pixel_buffer st = Some bytes ->
  0 <= width (self st) / 8 ->
  fst (show st) = Return tt /\
  transmitted show st
  = command_byte (_vcom (self st))
      :: concat (line_frame (width (self st) / 8) bytes <$> range (height (self st)))
      ++ [if 0 <? height (self st) then 0 else command_byte (_vcom (self st))].
Proof.
  intros Hscratch Hcredit Hb Hrb.
  destruct (scratch_byte _ Hscratch) as [a Ha].
  assert (Hrun := show_run_with st a
            (Z.of_nat (Z.to_nat (height (self st))) * (width (self st) / 8))
            (if 0 <? height (self st) then 0 else command_byte (_vcom (self st)))
            (concat (line_frame (width (self st) / 8) bytes <$> range (height (self st))))
            Ha Hcredit).
  cbv zeta in Hrun.
  assert (Hshow := Hrun (fun st2 H2 Hc2 Hb2 =>
            show_loop_run _ _ _ bytes st2 Hrb H2 Hc2 (eq_trans Hb2 Hb))).
  exact (transmitted_wrote st _ _ _ _ Hshow).
Qed.

(** After [show], the display is as ready for the next [show] as it was. *)
Lemma show_stays_ready (st : state) :
  length (_buf (self (after show st))) = length (_buf (self st)) /\
  (credit (spi_device (self st)) = None ->
   credit (spi_device (self (after show st))) = None) /\
  pixel_buffer (after show st) = pixel_buffer st /\
  width (self (after show st)) = width (self st) /\
  height (self (after show st)) = height (self st).
Proof.
  pose proof (show_view_show st) as Hview. unfold kept, show_view in Hview.
  injection Hview as Hheap _ Hbuffer _ Hw Hh _ _ Hlen Hcr.
  split; [exact Hlen|]. split; [|split; [|split; assumption]].
  - intros Hnone. rewrite Hnone in Hcr.
    destruct (credit (spi_device (self (after show st)))); [discriminate Hcr|reflexivity].
  - unfold pixel_buffer. now rewrite Hheap, Hbuffer.
Qed.

(** X5: two calls of [show] in a row send the same lines and terminators;
    the second frame differs from the first in the command byte only, whose
    VCOM bit [0x40] is the other way round. *)
Theorem show_twice (st : state) (bytes : bytearray) :
  length (_buf (self st)) = 1%nat ->
  credit (spi_device (self st)) = None ->
  pixel_buffer st = Some bytes ->
  0 <= width (self st) ->
  1 <= height (self st) ->
  transmitted show st
  = frame (_vcom (self st)) (width (self st) / 8) (height (self st)) bytes /\
  transmitted show (after show st)
  = frame (negb (_vcom (self st))) (width (self st) / 8) (height (self st)) bytes /\
  tail (transmitted show (after show st)) = tail (transmitted show st) /\
  head (transmitted show (after show st))
  = Z.lxor 0x40 <$> head (transmitted show st).
Proof.
  intros Hscratch Hcredit Hb Hw Hh.
  assert (Hrb : 0 <= width (self st) / 8) by (apply Z.div_pos; lia).
  destruct (show_stays_ready st) as (Hlen & Hcr & Hbuf & Hw' & Hh').
  destruct (show_transmits st bytes Hscratch Hcredit Hb Hrb) as [_ H1].
  destruct (show_transmits (after show st) bytes) as [_ H2];
    try congruence; auto.
  rewrite Hw', Hh', (show_flips_vcom st Hscratch) in H2.
  destruct (Z.ltb_spec 0 (height (self st))); [|lia].
  rewrite H1, H2. unfold frame.
  repeat split; try reflexivity.
  destruct (_vcom (self st)); reflexivity.
Qed.

Lemma show_twice_witness :
  transmitted show panel_8x1 = [0xC0; 0x80; 0x80; 0x00; 0x00] /\
  transmitted show (after show panel_8x1) = [0x80; 0x80; 0x80; 0x00; 0x00].
Proof.
  destruct (show_twice panel_8x1 [0x80] eq_refl eq_refl eq_refl
              ltac:(simpl; lia) ltac:(simpl; lia)) as (H1 & H2 & _).
  split; [rewrite H1 | rewrite H2]; reflexivity.
Defined.

Lemma row_of_zeros (rb h r : Z) :
  0 <= rb -> 0 <= r < h ->
  row rb (replicate (Z.to_nat (rb * h)) 0) r = replicate (Z.to_nat rb) 0.
Proof.
  intros Hrb Hr. unfold row. rewrite drop_replicate, take_replicate. f_equal.
  assert ((r + 1) * rb <= rb * h) by nia. lia.
Qed.

(** X6: a display that has just been constructed refreshes to a blank
    panel: the first [show] sends the command byte with VCOM set and, for
    every row, its address, [width // 8] zero bytes and the terminator. *)
Theorem fresh_display_shows_blank (np : bool) (bus : SPIDevice) (w h : Z) (st0 : state) :
  __init__ np bus w h = Return st0 ->
  credit bus = None ->
  1 <= h ->
  fst (show st0) = Return tt /\
  transmitted show st0
  = 0xC0 :: concat ((fun r => reverse_bit (r + 1) :: replicate (Z.to_nat (w / 8)) 0 ++ [0])
                      <$> range h) ++ [0].
Proof.
  intros Hinit Hbus Hh.
  assert (Hn : 0 <= w / 8 * h).
  { unfold __init__ in Hinit. destruct (Z.ltb_spec (w / 8 * h) 0); [discriminate|lia]. }
  assert (Hrb : 0 <= w / 8) by nia.
  apply init_state in Hinit. subst st0.
  match goal with |- context [show ?s] => set (st0 := s) end.
  destruct (show_transmits st0 (replicate (Z.to_nat (w / 8 * h)) 0) eq_refl Hbus eq_refl Hrb)
    as [Hret Hsent].
  split; [exact Hret|]. rewrite Hsent. subst st0. cbn [self width height _vcom].
  destruct (Z.ltb_spec 0 h); [|lia].
  change (command_byte true) with 0xC0. do 3 f_equal.
  apply list_fmap_ext. intros i r Hr.
  apply lookup_seqZ in Hr as [-> Hi]. unfold line_frame.
  rewrite (row_of_zeros (w / 8) h) by lia. reflexivity.
Qed.

Lemma fresh_display_shows_blank_witness :
  transmitted show (constructed false idle_bus 16 2)
  = [0xC0; 0x80; 0; 0; 0; 0x40; 0; 0; 0; 0].
Proof.
  destruct (fresh_display_shows_blank false idle_bus 16 2 (constructed false idle_bus 16 2)
              eq_refl eq_refl ltac:(lia)) as [_ Hsent].
  etransitivity; [exact Hsent | reflexivity].
Defined.

(** ** [show] on a bus that gives up *)

Section performs.

Context (bytes : bytearray) (g : Z * Z).

Lemma performs_ret {A} (a : Z) (r : A) : performs bytes g a (ret r) [] a r.
Proof.
  intros st n Ha Hb Hg Hn. unfold after. cbn [ret fst snd length].
  rewrite take_nil, app_nil_r, Nat.sub_0_r.
  destruct (decide (0 <= n)%nat); [repeat split; assumption | lia].
Qed.

Lemma performs_bind {A B} (a a1 a2 : Z) (c : M A) (k : A -> M B)
    (ws1 ws2 : list (list Z)) (r1 : A) (r2 : B) :
  performs bytes g a c ws1 a1 r1 ->
  performs bytes g a1 (k r1) ws2 a2 r2 ->
  performs bytes g a (bind c k) (ws1 ++ ws2) a2 r2.
Proof.
  intros H1 H2 st n Ha Hb Hg Hn.
  destruct (H1 st n Ha Hb Hg Hn) as (Hwire1 & Hcredit1 & Hout1).
  unfold after, bind in *. destruct (c st) as [o st1]. cbn [fst snd] in *.
  rewrite length_app.
  destruct (decide (length ws1 <= n)%nat) as [Hle|Hgt].
  - destruct Hout1 as (-> & Ha1 & Hb1 & Hg1).
    destruct (H2 st1 (n - length ws1)%nat Ha1 Hb1 Hg1 Hcredit1) as (Hwire2 & Hcredit2 & Hout2).
    unfold after in Hwire2, Hcredit2, Hout2.
    split; [|split].
    + rewrite Hwire2, Hwire1, take_app_ge, (take_ge ws1), concat_app, app_assoc by lia.
      reflexivity.
    + rewrite Hcredit2. f_equal. lia.
    + destruct (decide (length ws2 <= n - length ws1)%nat),
               (decide (length ws1 + length ws2 <= n)%nat); try lia; exact Hout2.
  - rewrite Hout1. cbn [fst snd]. split; [|split].
    + rewrite Hwire1, take_app_le by lia. reflexivity.
    + rewrite Hcredit1. f_equal. lia.
    + destruct (decide (length ws1 + length ws2 <= n)%nat); [lia | reflexivity].
Qed.

Lemma performs_width {A} (a a' : Z) (k : Z -> M A) (ws : list (list Z)) (r : A) :
  performs bytes g a (k g.1) ws a' r ->
  performs bytes g a (bind (attr width) k) ws a' r.
Proof.
  intros H st n Ha Hb Hg Hn.
  assert (Hw : width (self st) = g.1) by now rewrite <- Hg.
  unfold after, bind, attr. rewrite Hw. exact (H st n Ha Hb Hg Hn).
Qed.

Lemma performs_height {A} (a a' : Z) (k : Z -> M A) (ws : list (list Z)) (r : A) :
  performs bytes g a (k g.2) ws a' r ->
  performs bytes g a (bind (attr height) k) ws a' r.
Proof.
  intros H st n Ha Hb Hg Hn.
  assert (Hh : height (self st) = g.2) by now rewrite <- Hg.
  unfold after, bind, attr. rewrite Hh. exact (H st n Ha Hb Hg Hn).
Qed.

Lemma performs_setitem (a v : Z) :
  0 <= v < 256 -> performs bytes g a (_buf_setitem 0 v) [] v tt.
Proof.
  intros Hv st n Ha Hb Hg Hn.
  unfold after, _buf_setitem, bind, attr, lift, assign.
  rewrite Ha, (setitem_scratch a v Hv). cbn [fst snd length].
  rewrite take_nil, app_nil_r, Nat.sub_0_r.
  destruct (decide (0 <= n)%nat); [repeat split; assumption | lia].
Qed.

(** One [spi.write] of [data] that leaves everything but the bus alone. *)
Lemma performs_spi_write (a : Z) (data : list Z) (c : M unit) :
  (forall st, _buf (self st) = [a] -> pixel_buffer st = Some bytes -> c st = spi_write data st) ->
  performs bytes g a c [data] a tt.
Proof.
  intros Hc st n Ha Hb Hg Hn. unfold after. rewrite (Hc st Ha Hb).
  unfold spi_write. rewrite Hn. destruct n as [|n]; cbn [fst snd length].
  - rewrite take_0, app_nil_r.
    destruct (decide (1 <= 0)%nat); [lia | repeat split; assumption].
  - cbn [take concat]. rewrite take_nil, app_nil_r.
    destruct (decide (1 <= S n)%nat); [|lia].
    repeat split; try assumption. cbn. f_equal. lia.
Qed.

Lemma performs_write_scratch (a : Z) :
  performs bytes g a (b <- attr _buf ;; spi_write b) [[a]] a tt.
Proof.
  apply performs_spi_write. intros st Ha _. unfold bind, attr. now rewrite Ha.
Qed.

Lemma performs_write_slice (a lo hi : Z) :
  performs bytes g a
    (r <- attr buffer ;; b <- deref r ;; spi_write (py_slice b lo hi))
    [py_slice bytes lo hi] a tt.
Proof.
  apply performs_spi_write. intros st _ Hb. unfold bind, attr, deref.
  unfold pixel_buffer in Hb. now rewrite Hb.
Qed.

Lemma performs_show_line (a rb r : Z) :
  0 <= rb -> 0 <= r ->
  performs bytes g a (show_line rb r (r * rb)) (line_writes rb bytes r) 0 (r * rb + rb).
Proof.
  intros Hrb Hr. unfold show_line, line_writes. rewrite <- py_slice_row by assumption.
  eapply (performs_bind _ _ _ _ _ []); [apply performs_setitem, reverse_bit_range|].
  eapply (performs_bind _ _ _ _ _ [_]); [apply performs_write_scratch|].
  eapply (performs_bind _ _ _ _ _ [_]); [apply performs_write_slice|].
  cbv zeta.
  eapply (performs_bind _ _ _ _ _ []); [apply performs_setitem; lia|].
  eapply (performs_bind _ _ _ _ _ [_] []); [apply performs_write_scratch|].
  apply performs_ret.
Qed.

Lemma performs_show_lines (rb : Z) (n : nat) :
  0 <= rb ->
  forall k a, 0 <= k ->
  performs bytes g a (for_ (seqZ k (Z.of_nat n)) (show_line rb) (k * rb))
    (concat (line_writes rb bytes <$> seqZ k (Z.of_nat n)))
    (match n with O => a | S _ => 0 end) ((k + Z.of_nat n) * rb).
Proof.
  intros Hrb. induction n as [|n IH]; intros k a Hk.
  - rewrite Z.add_0_r. apply performs_ret.
  - rewrite seqZ_cons by lia.
    replace (Z.pred (Z.of_nat (S n))) with (Z.of_nat n) by lia.
    cbn [for_ fmap list_fmap concat].
    replace ((k + Z.of_nat (S n)) * rb) with ((Z.succ k + Z.of_nat n) * rb) by lia.
    eapply performs_bind; [apply performs_show_line; assumption|].
    replace (k * rb + rb) with (Z.succ k * rb) by lia.
    specialize (IH (Z.succ k) 0 ltac:(lia)).
    destruct n; exact IH.
Qed.

End performs.

Lemma performs_show_rest (bytes : bytearray) (w h a : Z) :
  0 <= w / 8 ->
  performs bytes (w, h) a show_rest
    ([a] :: concat (line_writes (w / 8) bytes <$> range h) ++ [[if 0 <? h then 0 else a]])
    (if 0 <? h then 0 else a) tt.
Proof.
  intros Hrb. unfold show_rest.
  eapply (performs_bind _ _ _ _ _ _ _ [[a]]); [apply performs_write_scratch|].
  apply performs_width, performs_height. cbn [fst snd].
  pose proof (performs_show_lines bytes (w, h) (w / 8) (Z.to_nat h) Hrb 0 a ltac:(lia)) as Hloop.
  assert (Hrange : seqZ 0 (Z.of_nat (Z.to_nat h)) = range h).
  { unfold range, seqZ. now rewrite Nat2Z.id. }
  rewrite Hrange in Hloop. change (0 * (w / 8)) with 0 in Hloop.
  assert (Hlast : match Z.to_nat h with O => a | S _ => 0 end = if 0 <? h then 0 else a).
  { destruct (Z.ltb_spec 0 h); [destruct (Z.to_nat h) eqn:E; [lia|reflexivity]|].
    now replace (Z.to_nat h) with O by lia. }
  rewrite Hlast in Hloop.
  eapply performs_bind; [exact Hloop|]. apply performs_write_scratch.
Qed.

(** X4: [show] on a bus that takes only [n] more writes. It gets through
    the first [n] of its writes (command byte, three a row, closing byte) and
    nothing else reaches the wire; it returns if that was all of them and
    raises the bus error otherwise. Either way chip select is released and
    the toggle has flipped. *)
Theorem show_on_failing_bus (st : state) (bytes : bytearray) (n : nat) :
  length (_buf (self st)) = 1%nat ->
  credit (spi_device (self st)) = Some n ->
  pixel_buffer st = Some bytes ->
  0 <= width (self st) ->
  let ws := show_writes (_vcom (self st)) (width (self st) / 8) (height (self st)) bytes in
  transmitted show st = concat (take n ws) /\
  fst (show st) = (if decide (length ws <= n)%nat then Return tt else Raise OSError) /\
  length ws = (2 + 3 * Z.to_nat (height (self st)))%nat /\
  cs (spi_device (self (after show st))) = false /\
  _vcom (self (after show st)) = negb (_vcom (self st)).
Proof.
  intros Hscratch Hcredit Hb Hw ws.
  assert (Hrb : 0 <= width (self st) / 8) by (apply Z.div_pos; lia).
  destruct (scratch_byte _ Hscratch) as [a Ha].
  pose proof (show_flips_vcom st Hscratch) as Hflip.
  assert (Hlen : length ws = (2 + 3 * Z.to_nat (height (self st)))%nat).
  { subst ws. unfold show_writes. cbn [length]. rewrite length_app. cbn [length].
    rewrite (length_concat_const _ 3).
    - rewrite length_fmap. unfold range. rewrite length_seqZ. lia.
    - apply Forall_fmap, Forall_forall. intros r _. reflexivity. }
  set (st1 := with_self toggled (select true st)).
  pose proof (performs_show_rest bytes (width (self st)) (height (self st))
                (command_byte (_vcom (self st))) Hrb st1 n
                eq_refl Hb eq_refl Hcredit) as (Hwire & _ & Hout).
  fold (show_writes (_vcom (self st)) (width (self st) / 8) (height (self st)) bytes) in *.
  fold ws in Hwire, Hout.
  assert (Hshow : show st
                  = (fst (show_rest st1), select false (after show_rest st1))).
  { rewrite (show_unfold st a Ha). unfold with_spi_device. fold (select true st).
    fold st1. unfold after. now destruct (show_rest st1). }
  split; [|split; [|split; [exact Hlen|split; [|exact Hflip]]]].
  - unfold transmitted, after. rewrite Hshow. cbn [snd].
    change (wire (spi_device (self (select false ?s)))) with (wire (spi_device (self s))).
    rewrite Hwire. apply drop_app_length.
  - rewrite Hshow. cbn [fst].
    destruct (decide (length ws <= n)%nat); [apply Hout | exact Hout].
  - unfold after. rewrite Hshow. reflexivity.
Qed.

Lemma show_on_failing_bus_witness :
  let st := with_self (set_spi_device (mkSPI [] false (Some 3%nat))) panel_8x1 in
  transmitted show st = [0xC0; 0x80; 0x80] /\ fst (show st) = Raise OSError.
Proof.
  intros st.
  destruct (show_on_failing_bus st [0x80] 3 eq_refl eq_refl eq_refl ltac:(simpl; lia))
    as (Hsent & Hout & _).
  split; [exact Hsent | exact Hout].
Defined.

(** ** [image] and what comes after it *)

Lemma after_attr {A B} (f : SharpMemoryDisplay -> A) (k : A -> M B) (st : state) :
  after (bind (attr f) k) st = after (k (f (self st))) st.
Proof. reflexivity. Qed.

Lemma panel_view_store r i v : respects (kept panel_view) (store r i v).
Proof.
  intros st. unfold kept, after, store, bind, deref, lift.
  destruct (heap st !! r) as [b|]; [|reflexivity].
  destruct (setitem b i v); reflexivity.
Qed.

#[local] Hint Resolve panel_view_store : respects.

Lemma panel_view_set_pixel x y c : respects (kept panel_view) (MHMSBFormat.set_pixel x y c).
Proof. unfold MHMSBFormat.set_pixel. respects_block. Qed.

Lemma panel_view_pixel x y c : respects (kept panel_view) (pixel x y c).
Proof.
  intros st. cbv beta iota zeta delta [pixel bind attr raise after kept].
  destruct (rotation (self st) =? 1), (rotation (self st) =? 2),
    (rotation (self st) =? 3); cbv zeta beta iota;
    match goal with |- context [if ?b then _ else _] => destruct b end;
    solve [reflexivity | apply panel_view_set_pixel].
Qed.

Lemma panel_view_image (img : Image) : respects (kept panel_view) (image img).
Proof.
  intros st. unfold kept, after, image. rewrite image_with_unfold.
  repeat match goal with |- context [if ?b then (_, _) else _] => destruct b end;
    try reflexivity.
  destruct (numpy st) eqn:Hnp; [now rewrite image_numpy_run|].
  assert (H : respects (kept panel_view)
                (image_loop pixel img (effective_size (self st)).1
                            (effective_size (self st)).2)).
  { unfold image_loop, image_pixel. pose proof panel_view_pixel.
    respects_block; auto. }
  apply H.
Qed.

(** Both paths, on an upright panel. *)
Lemma image_on_upright (img : Image) (st : state) (flag : bool) :
  upright st -> fits img st ->
  fst (image img (with_numpy flag st)) = Return tt /\
  pixel_buffer (after (image img) (with_numpy flag st)) = Some (packed img) /\
  Z.of_nat (length (packed img)) = width (self st) / 8 * height (self st).
Proof.
  intros (Hrot & Hstride & Hw & Hh & Hal & Halias & Hlen) [Hmode Hsize].
  destruct (pixel_buffer st) as [bytes|] eqn:Hbuf; [|discriminate Hlen].
  injection Hlen as Hlen.
  assert (Hsize' : size img = (width (self st), height (self st))).
  { rewrite Hsize. unfold effective_size. now rewrite Hrot. }
  destruct (image_paths_agree_unrotated img st bytes Hrot Hstride Hw Hh Hal Halias
              Hbuf Hlen Hmode Hsize') as (Hfast & Hslow & Hpacked & Hagree).
  unfold paths_agree in Hagree. rewrite Hpacked in Hagree.
  split; [destruct flag; assumption|]. split; [destruct flag; assumption|].
  unfold packed. apply (length_numpy_bytes_aligned img _ _ Hsize'); assumption.
Qed.

(** X7: on an upright panel, [image] with an image that fits returns and
    leaves the packed image in the pixel buffer, on the vectorized path and
    on the per-pixel path alike, and whatever the buffer held before. *)
Theorem image_builds_packed_rows (img : Image) (st : state) :
  upright st -> fits img st ->
  (fst (image img (with_numpy true st)) = Return tt /\
   pixel_buffer (after (image img) (with_numpy true st)) = Some (packed img)) /\
  (fst (image img (with_numpy false st)) = Return tt /\
   pixel_buffer (after (image img) (with_numpy false st)) = Some (packed img)) /\
  Z.of_nat (length (packed img)) = width (self st) / 8 * height (self st).
Proof.
  intros Hup Hfit.
  destruct (image_on_upright img st true Hup Hfit) as (Hret1 & Hbuf1 & Hlen).
  destruct (image_on_upright img st false Hup Hfit) as (Hret0 & Hbuf0 & _).
  repeat split; assumption.
Qed.

Lemma upright_constructed_16x2 (np : bool) : upright (constructed np idle_bus 16 2).
Proof. repeat split; try reflexivity; simpl; lia. Defined.

Lemma image_builds_packed_rows_witness :
  pixel_buffer (after (image dots_16x2) (constructed true idle_bus 16 2))
  = Some [0x20; 0x00; 0x00; 0x10] /\
  pixel_buffer (after (image dots_16x2) (constructed false idle_bus 16 2))
  = Some [0x20; 0x00; 0x00; 0x10].
Proof.
  destruct (image_builds_packed_rows dots_16x2 (constructed false idle_bus 16 2)
              (upright_constructed_16x2 false) (conj eq_refl eq_refl))
    as ((_ & Hfast) & (_ & Hslow) & _).
  split; [exact Hfast | exact Hslow].
Defined.

Lemma pixel_at_inverse (rb x y : Z) :
  0 <= x < 8 * rb -> 0 <= y ->
  pixel_at rb (Z.to_nat (y * rb + x / 8)) (7 - x mod 8) = (x, y).
Proof.
  intros Hx Hy. unfold pixel_at.
  assert (Ha : 0 <= x / 8 < rb)
    by (split; [apply Z.div_pos; lia | apply Z.div_lt_upper_bound; lia]).
  assert (0 <= y * rb) by nia.
  rewrite Z2Nat.id by lia.
  replace ((y * rb + x / 8) mod rb) with (x / 8)
    by (apply (Z.mod_unique_pos _ _ y); lia).
  replace ((y * rb + x / 8) / rb) with y
    by (apply (Z.div_unique_pos _ _ _ (x / 8)); lia).
  pose proof (Z.div_mod x 8 ltac:(lia)). f_equal. lia.
Qed.

(** X8: the layout [image] leaves behind on an upright panel: pixel
    [(x, y)] of the image is bit [7 - x % 8] of byte [y * (width // 8) + x //
    8] of the pixel buffer, set exactly when the pixel is lit. *)
Theorem image_buffer_layout (img : Image) (st : state) (flag : bool) (x y : Z) :
  upright st -> fits img st ->
  0 <= x < width (self st) -> 0 <= y < height (self st) ->
  exists bytes,
    pixel_buffer (after (image img) (with_numpy flag st)) = Some bytes /\
    Z.testbit (bytes !!! Z.to_nat (y * (width (self st) / 8) + x / 8)) (7 - x mod 8)
    = truthy (load img x y).
Proof.
  intros Hup Hfit Hx Hy.
  destruct (image_on_upright img st flag Hup Hfit) as (_ & Hbuf & _).
  exists (packed img). split; [exact Hbuf|].
  destruct Hup as (Hrot & _ & Hw & Hh & Hal & _), Hfit as [_ Hsize].
  set (rb := width (self st) / 8).
  assert (Hwidth : width (self st) = 8 * rb).
  { pose proof (Z.div_mod (width (self st)) 8 ltac:(lia)). subst rb. lia. }
  assert (Hsize' : size img = (8 * rb, height (self st))).
  { rewrite Hsize. unfold effective_size. now rewrite Hrot, Hwidth. }
  assert (Ha : 0 <= x / 8 < rb)
    by (split; [apply Z.div_pos; lia | apply Z.div_lt_upper_bound; lia]).
  pose proof (Z.mod_pos_bound x 8 ltac:(lia)).
  destruct (numpy_bytes_bits img rb (height (self st))
              (Z.to_nat (y * rb + x / 8)) (7 - x mod 8) Hsize') as [_ Hbit]; try lia.
  { assert (0 <= y * rb) by nia. rewrite Z2Nat.id by lia. nia. }
  unfold packed. rewrite Hbit, pixel_at_inverse by lia. reflexivity.
Qed.

Lemma image_buffer_layout_witness :
  exists bytes,
    pixel_buffer (after (image dots_16x2) (constructed true idle_bus 16 2)) = Some bytes /\
    Z.testbit (bytes !!! 3%nat) 4 = true.
Proof.
  exact (image_buffer_layout dots_16x2 (constructed false idle_bus 16 2) true 11 1
           (upright_constructed_16x2 false) (conj eq_refl eq_refl)
           ltac:(simpl; lia) ltac:(simpl; lia)).
Defined.

(** X9: what is loaded is what is sent. On an upright panel of at least
    one row, [show] after [image] puts on the wire the frame whose rows are
    the packed rows of the image, on either path of [image]. *)
Theorem image_then_show (img : Image) (st : state) (flag : bool) :
  upright st -> fits img st ->
  length (_buf (self st)) = 1%nat ->
  credit (spi_device (self st)) = None ->
  1 <= height (self st) ->
  fst (show (after (image img) (with_numpy flag st))) = Return tt /\
  transmitted show (after (image img) (with_numpy flag st))
  = frame (_vcom (self st)) (width (self st) / 8) (height (self st)) (packed img).
Proof.
  intros Hup Hfit Hscratch Hcredit Hh.
  destruct (image_on_upright img st flag Hup Hfit) as (_ & Hbuf & _).
  pose proof (panel_view_image img (with_numpy flag st)) as Hview.
  unfold kept, panel_view in Hview.
  injection Hview as Hdev Hscr Hv Hw' Hh' _ _ _ _. cbn [with_numpy self] in *.
  set (st1 := after (image img) (with_numpy flag st)) in *.
  destruct Hup as (_ & _ & Hw & _).
  destruct (show_transmits st1 (packed img)) as [Hret Hsent];
    try congruence.
  { rewrite Hw'. apply Z.div_pos; lia. }
  split; [exact Hret|]. rewrite Hsent, Hv, Hw', Hh'.
  destruct (Z.ltb_spec 0 (height (self st))); [reflexivity | lia].
Qed.

Lemma image_then_show_witness :
  transmitted show (after (image dots_16x2) (constructed true idle_bus 16 2))
  = [0xC0; 0x80; 0x20; 0x00; 0x00; 0x40; 0x00; 0x10; 0x00; 0x00].
Proof.
  destruct (image_then_show dots_16x2 (constructed false idle_bus 16 2) true
              (upright_constructed_16x2 false) (conj eq_refl eq_refl)
              eq_refl eq_refl ltac:(simpl; lia)) as [_ Hsent].
  etransitivity; [exact Hsent | reflexivity].
Defined.

(** ** Drawing after the vectorized path *)

Lemma other_view_store (r : ref) (i v : Z) : respects (kept (other_view r)) (store r i v).
Proof.
  intros st. unfold kept, after, store, bind, deref, lift.
  destruct (heap st !! r) as [b|]; [|reflexivity].
  destruct (setitem b i v) as [b'|]; [|reflexivity].
  unfold other_view. cbn [snd self heap with_heap].
  destruct (decide (r = buffer (self st))) as [Heq|Hne]; [reflexivity|].
  now rewrite list_lookup_insert_ne.
Qed.

#[local] Hint Resolve other_view_store : respects.

Lemma other_view_set_pixel (x y : Z) (c : color) (st : state) :
  other_view (buf (self st)) (after (MHMSBFormat.set_pixel x y c) st)
  = other_view (buf (self st)) st.
Proof.
  unfold MHMSBFormat.set_pixel. rewrite after_attr. cbv zeta. rewrite after_attr.
  match goal with |- context [after ?c st] =>
    assert (H : respects (kept (other_view (buf (self st)))) c) by respects_block
  end.
  apply H.
Qed.

Lemma other_view_pixel (x y : Z) (c : color) (st : state) :
  other_view (buf (self st)) (after (pixel x y c) st) = other_view (buf (self st)) st.
Proof.
  cbv beta iota zeta delta [pixel bind attr raise after].
  destruct (rotation (self st) =? 1), (rotation (self st) =? 2),
    (rotation (self st) =? 3); cbv zeta beta iota;
    match goal with |- context [if ?b then _ else _] => destruct b end;
    solve [reflexivity | apply other_view_set_pixel].
Qed.

Lemma other_view_clear (st : state) :
  other_view (buf (self st)) (after clear st) = other_view (buf (self st)) st.
Proof.
  unfold clear, MHMSBFormat.fill. cbv zeta. rewrite after_attr.
  match goal with |- context [after ?c st] =>
    assert (H : respects (kept (other_view (buf (self st)))) c) by respects_block
  end.
  apply H.
Qed.

(** Drawing through the frame buffer leaves a pixel buffer that [buf] does
    not name as it is. *)
Lemma drawing_misses_other (op : operation) (st : state) :
  draws op = true -> buf (self st) <> buffer (self st) ->
  pixel_buffer (after (run op) st) = pixel_buffer st.
Proof.
  intros Hop Hne.
  assert (Hview : other_view (buf (self st)) (after (run op) st)
                  = other_view (buf (self st)) st).
  { destruct op; try discriminate Hop; cbn [run];
      [apply other_view_pixel | apply other_view_clear]. }
  unfold other_view in Hview. injection Hview as Hbuffer Hlook.
  rewrite Hbuffer in Hlook.
  destruct (decide (buf (self st) = buffer (self st))); [contradiction|].
  unfold pixel_buffer. now rewrite Hbuffer.
Qed.

(** X10: once [image] has taken the vectorized path, the frame buffer's
    [buf] and the display's [buffer] name different bytearrays, and drawing
    with [pixel] or [fill] no longer reaches what [show] transmits: the pixel
    buffer still holds the packed image afterwards. *)
Theorem drawing_after_numpy_image (img : Image) (st : state) (bytes : bytearray)
    (op : operation) :
  numpy st = true ->
  fits img st ->
  buf (self st) = buffer (self st) ->
  pixel_buffer st = Some bytes ->
  draws op = true ->
  fst (image img st) = Return tt /\
  buf (self (after (image img) st)) <> buffer (self (after (image img) st)) /\
  pixel_buffer (after (image img) st) = Some (packed img) /\
  pixel_buffer (after (run op) (after (image img) st)) = Some (packed img).
Proof.
  intros Hnp [Hmode Hsize] Halias Hbuf Hop.
  assert (Hrun : image img st
                 = (Return tt,
                    with_self (set_buffer (length (heap st)))
                      (with_heap (fun h => h ++ [packed img]) st))).
  { unfold image. rewrite image_with_unfold, Hmode, Hsize, Hnp, !Z.eqb_refl.
    apply image_numpy_run. }
  unfold after at 1 2 3 5. rewrite Hrun. cbn [fst snd].
  set (st1 := with_self _ _).
  assert (Hne : buf (self st1) <> buffer (self st1)).
  { subst st1. cbn. unfold pixel_buffer in Hbuf. apply lookup_lt_Some in Hbuf. lia. }
  assert (Hpacked : pixel_buffer st1 = Some (packed img)).
  { subst st1. unfold pixel_buffer. cbn. now apply list_lookup_middle. }
  split; [reflexivity|]. split; [exact Hne|]. split; [exact Hpacked|].
  now rewrite (drawing_misses_other op st1 Hop Hne).
Qed.

Lemma drawing_after_numpy_image_witness :
  let st := after (image dots_16x2) (constructed true idle_bus 16 2) in
  pixel_buffer (after clear st) = Some [0x20; 0x00; 0x00; 0x10] /\
  heap (after clear st) !! buf (self st) = Some [0; 0; 0; 0].
Proof.
  intros st. split; [|reflexivity].
  destruct (drawing_after_numpy_image dots_16x2 (constructed true idle_bus 16 2)
              [0; 0; 0; 0] Clear eq_refl (conj eq_refl eq_refl) eq_refl eq_refl eq_refl)
    as (_ & _ & _ & Hstill).
  etransitivity; [exact Hstill | reflexivity].
Defined.

(** ** The state [image] and [show] rely on *)

(** X11: being upright is what [__init__] establishes for a panel whose
    width is a multiple of 8, and what [pixel], [fill], [show] and the
    per-pixel path of [image] keep, whether they return or raise. *)
Theorem upright_is_kept :
  (forall np bus w h st0,
     __init__ np bus w h = Return st0 ->
     0 <= w -> 0 <= h -> w mod 8 = 0 -> upright st0) /\
  (forall op st,
     upright st -> in_place op st = true -> upright (after (run op) st)).
Proof.
  split.
  - intros np bus w h st0 Hinit Hw Hh Hal.
    assert (Hn : 0 <= w / 8 * h).
    { unfold __init__ in Hinit. destruct (Z.ltb_spec (w / 8 * h) 0); [discriminate|lia]. }
    apply init_state in Hinit. subst st0.
    repeat split; try assumption; try reflexivity.
    unfold pixel_buffer. cbn. rewrite length_replicate. f_equal. lia.
  - intros op st (Hrot & Hstride & Hw & Hh & Hal & Halias & Hlen) Hplace.
    pose proof (in_place_alloc_view op st Hplace) as Hview.
    pose proof (alloc_view_buffer_len _ _ Hview) as Hlen'.
    unfold buffer_len in Hlen'.
    unfold alloc_view in Hview.
    injection Hview as Hbuffer Hbuf Hw' Hh' Hstride' Hrot' _ _.
    unfold upright. rewrite Hlen', Hbuffer, Hbuf, Hw', Hh', Hstride', Hrot'.
    repeat split; assumption.
Qed.

Lemma upright_is_kept_witness :
  upright (constructed false idle_bus 16 2) /\
  upright (after (run (LoadImage dots_16x2)) (after (run Refresh) (constructed false idle_bus 16 2))).
Proof.
  destruct upright_is_kept as [Hinit Hops].
  assert (H0 : upright (constructed false idle_bus 16 2)).
  { apply (Hinit false idle_bus 16 2 _ eq_refl); [lia | lia | reflexivity]. }
  split; [exact H0|].
  apply Hops; [|reflexivity]. apply Hops; [exact H0 | reflexivity].
Defined.
